(** * aleph.model.export: the Export record, its publication protocol and
    its reclamation queries, embedded from [src/aleph/model/export.py].

    The Python class [Export] is a SQLAlchemy model.  Its instances are
    mutable objects shared between the caller and the session, so the
    embedding keeps a heap of instances addressed by reference and a
    session that lists the instances the record store knows.  Methods are
    computations in a state-and-exception monad over that world. *)

From Stdlib Require Import Strings.Byte.
From stdpp Require Import gmap strings list functions pretty sorting.

Open Scope Z_scope.

(** ** Python values that reach the serialized map *)

(** A path of [pathlib]: the directory it lives in and its final
    component. *)
Abbreviation Path := (string * string)%type.

Definition parent (p : Path) : string := fst p.
Definition name (p : Path) : string := snd p.

Inductive pyval :=
  | PyNone
  | PyStr (s : string)
  | PyInt (z : Z)
  | PyBool (b : bool)
  | PyLazy (msgid : string)          (* a [lazy_gettext] label *)
  | PyDatetime (t : Z)
  | PyJson (kv : list (string * string)).

(** [None] of Python for an absent optional value. *)
Definition py_opt {A} (f : A → pyval) (o : option A) : pyval :=
  match o with Some a => f a | None => PyNone end.

(** An exception: its class, its arguments, and whether the class
    derives from [Exception] (what [except Exception] catches;
    [KeyboardInterrupt] and [SystemExit] do not). *)
Record exn := Exn {
  exn_class : string;
  exn_args : string;
  derives_Exception : bool
}.

Definition RuntimeError (msg : string) : exn := Exn "RuntimeError" msg true.
Definition AttributeError (msg : string) : exn := Exn "AttributeError" msg true.
Definition TypeError (msg : string) : exn := Exn "TypeError" msg true.
Definition FileNotFoundError (msg : string) : exn := Exn "FileNotFoundError" msg true.
Definition OverflowError (msg : string) : exn := Exn "OverflowError" msg true.

(** ** The Export instance *)

(** An instance attribute that is not a mapped column exists only once
    it has been assigned. *)
Inductive attr (A : Type) :=
  | Absent
  | Bound (v : A).
Arguments Absent {A}.
Arguments Bound {A} v.

(** Columns are nullable unless they are the primary key of a stored
    row; datetimes are microseconds since 0001-01-01, timedeltas are
    microseconds. *)
Record export := mkExport {
  id : option Z;
  created_at : option Z;
  label : option string;
  operation : option string;
  creator_id : option Z;
  collection_id : option Z;
  expires_at : option Z;
  deleted : option bool;
  export_status : option string;
  content_hash : option string;
  file_size : option Z;
  file_name : option string;
  mime_type : option string;
  meta : option (list (string * string));
  _file_path : attr (option Path)
}.

Definition STATUS_PENDING : string := "pending".
Definition STATUS_SUCCESSFUL : string := "successful".
Definition STATUS_FAILED : string := "failed".

Definition EXPORT_STATUS : gmap string pyval :=
  <[STATUS_PENDING := PyLazy "pending"]>
  (<[STATUS_SUCCESSFUL := PyLazy "successful"]>
  (<[STATUS_FAILED := PyLazy "failed"]> ∅)).

Definition DEFAULT_STATUS : string := STATUS_PENDING.

(** [timedelta(days=30)] *)
Definition DEFAULT_EXPIRATION : Z := 30 * 86400 * 1000000.

(** What [cls()] builds: no column assigned, no [_file_path]. *)
Definition blank : export :=
  mkExport None None None None None None None None None None None None None None Absent.

Definition with_id (v : option Z) (e : export) : export :=
  mkExport v (created_at e) (label e) (operation e) (creator_id e) (collection_id e)
    (expires_at e) (deleted e) (export_status e) (content_hash e) (file_size e)
    (file_name e) (mime_type e) (meta e) (_file_path e).
Definition with_created_at (v : option Z) (e : export) : export :=
  mkExport (id e) v (label e) (operation e) (creator_id e) (collection_id e)
    (expires_at e) (deleted e) (export_status e) (content_hash e) (file_size e)
    (file_name e) (mime_type e) (meta e) (_file_path e).
Definition with_label (v : option string) (e : export) : export :=
  mkExport (id e) (created_at e) v (operation e) (creator_id e) (collection_id e)
    (expires_at e) (deleted e) (export_status e) (content_hash e) (file_size e)
    (file_name e) (mime_type e) (meta e) (_file_path e).
Definition with_operation (v : option string) (e : export) : export :=
  mkExport (id e) (created_at e) (label e) v (creator_id e) (collection_id e)
    (expires_at e) (deleted e) (export_status e) (content_hash e) (file_size e)
    (file_name e) (mime_type e) (meta e) (_file_path e).
Definition with_creator_id (v : option Z) (e : export) : export :=
  mkExport (id e) (created_at e) (label e) (operation e) v (collection_id e)
    (expires_at e) (deleted e) (export_status e) (content_hash e) (file_size e)
    (file_name e) (mime_type e) (meta e) (_file_path e).
Definition with_collection_id (v : option Z) (e : export) : export :=
  mkExport (id e) (created_at e) (label e) (operation e) (creator_id e) v
    (expires_at e) (deleted e) (export_status e) (content_hash e) (file_size e)
    (file_name e) (mime_type e) (meta e) (_file_path e).
Definition with_expires_at (v : option Z) (e : export) : export :=
  mkExport (id e) (created_at e) (label e) (operation e) (creator_id e) (collection_id e)
    v (deleted e) (export_status e) (content_hash e) (file_size e)
    (file_name e) (mime_type e) (meta e) (_file_path e).
Definition with_deleted (v : option bool) (e : export) : export :=
  mkExport (id e) (created_at e) (label e) (operation e) (creator_id e) (collection_id e)
    (expires_at e) v (export_status e) (content_hash e) (file_size e)
    (file_name e) (mime_type e) (meta e) (_file_path e).
Definition with_export_status (v : option string) (e : export) : export :=
  mkExport (id e) (created_at e) (label e) (operation e) (creator_id e) (collection_id e)
    (expires_at e) (deleted e) v (content_hash e) (file_size e)
    (file_name e) (mime_type e) (meta e) (_file_path e).
Definition with_content_hash (v : option string) (e : export) : export :=
  mkExport (id e) (created_at e) (label e) (operation e) (creator_id e) (collection_id e)
    (expires_at e) (deleted e) (export_status e) v (file_size e)
    (file_name e) (mime_type e) (meta e) (_file_path e).
Definition with_file_size (v : option Z) (e : export) : export :=
  mkExport (id e) (created_at e) (label e) (operation e) (creator_id e) (collection_id e)
    (expires_at e) (deleted e) (export_status e) (content_hash e) v
    (file_name e) (mime_type e) (meta e) (_file_path e).
Definition with_file_name (v : option string) (e : export) : export :=
  mkExport (id e) (created_at e) (label e) (operation e) (creator_id e) (collection_id e)
    (expires_at e) (deleted e) (export_status e) (content_hash e) (file_size e)
    v (mime_type e) (meta e) (_file_path e).
Definition with_mime_type (v : option string) (e : export) : export :=
  mkExport (id e) (created_at e) (label e) (operation e) (creator_id e) (collection_id e)
    (expires_at e) (deleted e) (export_status e) (content_hash e) (file_size e)
    (file_name e) v (meta e) (_file_path e).
Definition with_meta (v : option (list (string * string))) (e : export) : export :=
  mkExport (id e) (created_at e) (label e) (operation e) (creator_id e) (collection_id e)
    (expires_at e) (deleted e) (export_status e) (content_hash e) (file_size e)
    (file_name e) (mime_type e) v (_file_path e).
Definition with__file_path (v : attr (option Path)) (e : export) : export :=
  mkExport (id e) (created_at e) (label e) (operation e) (creator_id e) (collection_id e)
    (expires_at e) (deleted e) (export_status e) (content_hash e) (file_size e)
    (file_name e) (mime_type e) (meta e) v.

(** ** The world the methods run in *)

(** A call received by the content store ([aleph.core.archive]). *)
Inductive archive_call :=
  | PublishCall (namespace : option string) (path : Path) (mime : option string)
  | DeletePublicationCall (namespace : option string) (file_name : option string).

Record World := mkWorld {
  objs : nat → export;             (* the instances, by reference *)
  next_ref : nat;                  (* the next reference [cls()] hands out *)
  session : list nat;              (* instances of [db.session], oldest first *)
  next_id : Z;                     (* the sequence behind the primary key *)
  files : gmap Path (list Byte.byte);   (* regular files of the local disk *)
  published : gset (option string * option string);  (* blobs of the store, by namespace and name *)
  calls : list archive_call;       (* calls the store has received, oldest first *)
  faults : nat → option exn;       (* the error, if any, the store answers its n-th call with *)
  utcnow : Z                       (* the clock *)
}.

Definition with_objs (v : nat → export) (w : World) : World :=
  mkWorld v (next_ref w) (session w) (next_id w) (files w) (published w) (calls w)
    (faults w) (utcnow w).
Definition with_next_ref (v : nat) (w : World) : World :=
  mkWorld (objs w) v (session w) (next_id w) (files w) (published w) (calls w)
    (faults w) (utcnow w).
Definition with_session (v : list nat) (w : World) : World :=
  mkWorld (objs w) (next_ref w) v (next_id w) (files w) (published w) (calls w)
    (faults w) (utcnow w).
Definition with_next_id (v : Z) (w : World) : World :=
  mkWorld (objs w) (next_ref w) (session w) v (files w) (published w) (calls w)
    (faults w) (utcnow w).
Definition with_files (v : gmap Path (list Byte.byte)) (w : World) : World :=
  mkWorld (objs w) (next_ref w) (session w) (next_id w) v (published w) (calls w)
    (faults w) (utcnow w).
Definition with_published (v : gset (option string * option string)) (w : World) : World :=
  mkWorld (objs w) (next_ref w) (session w) (next_id w) (files w) v (calls w)
    (faults w) (utcnow w).
Definition with_calls (v : list archive_call) (w : World) : World :=
  mkWorld (objs w) (next_ref w) (session w) (next_id w) (files w) (published w) v
    (faults w) (utcnow w).

(** ** Computations: state that survives a raised exception *)

Inductive outcome (A : Type) :=
  | Return (a : A) (w : World)
  | Raise (e : exn) (w : World).
Arguments Return {A} a w.
Arguments Raise {A} e w.

Definition Py (A : Type) : Type := World → outcome A.

Definition world_of {A} (o : outcome A) : World :=
  match o with Return _ w => w | Raise _ w => w end.

#[global] Instance Py_ret : MRet Py := λ A a w, Return a w.
#[global] Instance Py_bind : MBind Py := λ A B k m w,
  match m w with
  | Return a w' => k a w'
  | Raise e w' => Raise e w'
  end.

Definition raise {A} (e : exn) : Py A := λ w, Raise e w.

(** [try: body except Exception as ex: handler ex] *)
Definition try_except {A} (body : Py A) (handler : exn → Py A) : Py A :=
  λ w, match body w with
       | Return a w' => Return a w'
       | Raise e w' => if derives_Exception e then handler e w' else Raise e w'
       end.

Definition get_world : Py World := λ w, Return w w.
Definition modify (f : World → World) : Py unit := λ w, Return tt (f w).

(** [self.x] for a mapped column and [self.x = v]. *)
Definition getattr {A} (self : nat) (col : export → A) : Py A :=
  λ w, Return (col (objs w self)) w.
Definition setattr (self : nat) (f : export → export) : Py unit :=
  modify (λ w, with_objs (<[self := f (objs w self)]> (objs w)) w).

(** ** The session of the record store *)

(** [db.session.add(obj)]: the instance joins the session (a second
    [add] of the same instance changes nothing; its pending changes are
    the attribute values the heap already holds). *)
Definition session_add (self : nat) : Py unit :=
  modify (λ w, if bool_decide (self ∈ session w) then w
               else with_session (session w ++ [self]) w).

Definition or_default {A} (d : A) (o : option A) : option A :=
  match o with Some a => Some a | None => Some d end.

(** The INSERT of a pending instance: the primary key comes from the
    sequence, and a column left at [None] takes its declared default
    ([deleted]: [False], [export_status]: [DEFAULT_STATUS], [meta]: [{}];
    [expires_at] defaults to [None]).  Modelled from the spec: the
    creation timestamp of the inherited record metadata is taken at that
    moment. *)
Definition insert_defaults (now i : Z) (e : export) : export :=
  with_id (Some i)
    (with_created_at (or_default now (created_at e))
      (with_deleted (or_default false (deleted e))
        (with_export_status (or_default DEFAULT_STATUS (export_status e))
          (with_meta (or_default [] (meta e)) e)))).

Definition flush_one (w : World) (o : nat) : World :=
  match id (objs w o) with
  | Some _ => w
  | None =>
      with_next_id (next_id w + 1)
        (with_objs (<[o := insert_defaults (utcnow w) (next_id w) (objs w o)]> (objs w)) w)
  end.

(** The flush a query of the session starts with. *)
Definition autoflush (w : World) : World := fold_left flush_one (session w) w.

(** ** SQL expressions over the columns of a row: three-valued *)

(** [col == v]: a [None] operand is rendered [col IS NULL]. *)
Definition col_eq {A} `{EqDecision A} (col : export → option A) (v : option A)
  : export → option bool :=
  λ r, match v with
       | None => Some (bool_decide (col r = None))
       | Some x => (λ c, bool_decide (c = x)) <$> col r
       end.

(** [col != v]: a [None] operand is rendered [col IS NOT NULL]. *)
Definition col_ne {A} `{EqDecision A} (col : export → option A) (v : option A)
  : export → option bool :=
  λ r, match v with
       | None => Some (bool_decide (col r ≠ None))
       | Some x => (λ c, bool_decide (c ≠ x)) <$> col r
       end.

(** [col.isnot(v)]: [col IS NOT v], never unknown. *)
Definition col_isnot {A} `{EqDecision A} (col : export → option A) (v : option A)
  : export → option bool :=
  λ r, Some (bool_decide (col r ≠ v)).

(** [col <= v] *)
Definition col_le (col : export → option Z) (v : Z) : export → option bool :=
  λ r, (λ c, bool_decide (c ≤ v)) <$> col r.

Inductive order_clause :=
  | created_at_desc.

(** A query under construction: the WHERE criteria, joined by AND, and
    the ORDER BY clause. *)
Record Query := mkQuery {
  criteria : list (export → option bool);
  ordering : option order_clause
}.

Definition query_filter (c : export → option bool) (q : Query) : Query :=
  mkQuery (criteria q ++ [c]) (ordering q).
Definition query_order_by (o : order_clause) (q : Query) : Query :=
  mkQuery (criteria q) (Some o).

(** Modelled from the spec: [Export.all()] is inherited from
    [aleph.model.common], which is not part of the sources; the record
    store of the spec answers it with every record of the entity. *)
Definition Export_all : Query := mkQuery [] None.

(** A row is selected when every criterion is true (not false, not
    unknown). *)
Definition selects (q : Query) (r : export) : Prop :=
  Forall (λ c, c r = Some true) (criteria q).

#[global] Instance selects_dec q r : Decision (selects q r).
Proof. unfold selects. apply _. Defined.

(** [ORDER BY created_at DESC] of PostgreSQL: newest first, a NULL
    before every timestamp. *)
Definition newer_or_same (a b : option Z) : Prop :=
  match a, b with
  | None, _ => True
  | Some _, None => False
  | Some x, Some y => y ≤ x
  end.

#[global] Instance newer_or_same_dec a b : Decision (newer_or_same a b).
Proof. destruct a, b; simpl; apply _. Defined.

Definition created_desc (w : World) (a b : nat) : Prop :=
  newer_or_same (created_at (objs w a)) (created_at (objs w b)).

#[global] Instance created_desc_dec w a b : Decision (created_desc w a b).
Proof. unfold created_desc. apply _. Defined.

(** Running a query: the session flushes, then the rows are read.
    Without ORDER BY the rows come in the order of the table. *)
Definition query_rows (q : Query) : Py (list nat) :=
  λ w, let w' := autoflush w in
       let rows := filter (λ o, selects q (objs w' o)) (session w') in
       Return (match ordering q with
               | Some created_at_desc => merge_sort (created_desc w') rows
               | None => rows
               end) w'.

(** [q.first()] *)
Definition query_first (q : Query) : Py (option nat) :=
  rows ← query_rows q; mret (head rows).

(** ** The clock, the local disk and the content store *)

Definition datetime_utcnow : Py Z := λ w, Return (utcnow w) w.

(** [datetime.max] is 9999-12-31T23:59:59.999999. *)
Definition DATETIME_END : Z := 3652059 * 86400 * 1000000.

(** [datetime + timedelta] *)
Definition datetime_add (t d : Z) : Py Z :=
  if bool_decide (0 ≤ t + d < DATETIME_END) then mret (t + d)
  else raise (OverflowError "date value out of range").

(** [path.stat().st_size].  The disk of the model holds regular files
    only: a path that is not in [files] has nothing at it. *)
Definition stat_size (p : Path) : Py Z :=
  λ w, match files w !! p with
       | Some bs => Return (Z.of_nat (length bs)) w
       | None => Raise (FileNotFoundError "No such file or directory") w
       end.

(** [src.rename(dst)] *)
Definition rename (src dst : Path) : Py unit :=
  λ w, match files w !! src with
       | Some bs => Return tt (with_files (<[dst := bs]> (delete src (files w))) w)
       | None => Raise (FileNotFoundError "No such file or directory") w
       end.

(** [Path(directory, name)]: a [None] component is a [TypeError]. *)
Definition Path_join (directory : string) (name : option string) : Py Path :=
  match name with
  | Some n => mret (directory, n)
  | None => raise (TypeError "expected str, bytes or os.PathLike object, not NoneType")
  end.

(** Modelled from the spec: the content store is an external
    collaborator.  [publish] stores the blob under the namespace and the
    file name of the path, [delete_publication] removes the blob at the
    namespace and name; either call may fail with an error of the
    backend, which the world's fault schedule decides. *)
Definition archive_publish (namespace : option string) (path : Path)
    (mime : option string) : Py unit :=
  λ w, let w1 := with_calls (calls w ++ [PublishCall namespace path mime]) w in
       match faults w (length (calls w)) with
       | Some e => Raise e w1
       | None => Return tt (with_published ({[ (namespace, Some (name path)) ]} ∪ published w1) w1)
       end.

Definition archive_delete_publication (namespace file_name : option string) : Py unit :=
  λ w, let w1 := with_calls (calls w ++ [DeletePublicationCall namespace file_name]) w in
       match faults w (length (calls w)) with
       | Some e => Raise e w1
       | None => Return tt (with_published (published w1 ∖ {[ (namespace, file_name) ]}) w1)
       end.

(** [servicelayer.cache.make_key]: the criteria that are not [None],
    joined by a colon. *)
Definition make_key (criteria : list (option string)) : option string :=
  match omap (λ c, c) criteria with
  | [] => None
  | cs => Some (String.concat ":" cs)
  end.

(** [normality.stringify] of an integer column. *)
Definition stringify (v : option Z) : option string := pretty <$> v.

(** ** The class Export *)

Section ExportModel.

(** Functions of the libraries the module calls: the digest behind
    [servicelayer.archive.util.checksum], [normality.safe_filename],
    and [to_dict_dates], which the class inherits from
    [aleph.model.common]. *)
Variable hexdigest : list Byte.byte → string.
Variable safe_filename : Path → option string.
Variable to_dict_dates : export → gmap string pyval.

(** [checksum(path)]: the digest of the bytes of a regular file,
    [None] when there is no such file. *)
Definition checksum (p : Path) : Py (option string) :=
  λ w, Return (hexdigest <$> files w !! p) w.

(** [self._file_path]: reading an attribute that was never assigned
    raises. *)
Definition get__file_path (self : nat) : Py (option Path) :=
  λ w, match _file_path (objs w self) with
       | Bound v => Return v w
       | Absent => Raise (AttributeError "'Export' object has no attribute '_file_path'") w
       end.

Definition to_dict (self : export) : gmap string pyval :=
  let data := to_dict_dates self in
  let data :=
    match export_status self ≫= (λ s, EXPORT_STATUS !! s) with
    | Some lbl => <["export_status" := lbl]> data
    | None => data
    end in
  (* data.update({...}) *)
  list_to_map [
    ("id", py_opt PyStr (stringify (id self)));
    ("label", py_opt PyStr (label self));
    ("operation", py_opt PyStr (operation self));
    ("creator_id", py_opt PyStr (stringify (creator_id self)));
    ("collection_id", py_opt PyInt (collection_id self));
    ("expires_at", py_opt PyDatetime (expires_at self));
    ("deleted", py_opt PyBool (deleted self));
    ("export_status", py_opt PyStr (export_status self));
    ("content_hash", py_opt PyStr (content_hash self));
    ("file_size", py_opt PyInt (file_size self));
    ("file_name", py_opt PyStr (file_name self));
    ("meta", py_opt PyJson (meta self))
  ] ∪ data.

Definition namespace (self : export) : option string :=
  make_key [Some "role"; stringify (creator_id self)].

Definition set_status (self : nat) (status : string) : Py unit :=
  match EXPORT_STATUS !! status with
  | Some _ =>
      setattr self (with_export_status (Some status));;
      session_add self
  | None => mret tt
  end.

Definition set_filepath (self : nat) (file_path : Path) : Py unit :=
  let file_name := safe_filename file_path in
  file_size ← stat_size file_path;
  setattr self (with_file_name file_name);;
  setattr self (with_file_size (Some file_size));;
  setattr self (with__file_path (Bound (Some file_path)));;
  h ← checksum file_path;
  setattr self (with_content_hash h).

Definition publish (self : nat) : Py unit :=
  fp ← get__file_path self;
  match fp with
  | None => raise (RuntimeError "file path not present for export: %r")
  | Some file_path =>
      h ← getattr self content_hash;
      path ← Path_join (parent file_path) h;
      rename file_path path;;
      try_except
        (ns ← getattr self namespace;
         mime ← getattr self mime_type;
         archive_publish ns path mime;;
         set_status self STATUS_SUCCESSFUL)
        (λ ex, set_status self STATUS_FAILED;; raise ex)
  end.

(** Python builds the three criteria from the attributes of [self]
    before [first()] runs the query. *)
Definition _should_delete_publication (self : nat) : Py bool :=
  h ← getattr self content_hash;
  i ← getattr self id;
  let q := query_filter (col_ne id i)
             (query_filter (col_isnot deleted (Some true))
               (query_filter (col_eq content_hash h) Export_all)) in
  r ← query_first q;
  mret (bool_decide (r = None)).

Definition delete_publication (self : nat) : Py unit :=
  b ← _should_delete_publication self;
  (if b : bool then
     ns ← getattr self namespace;
     h ← getattr self content_hash;
     archive_delete_publication ns h
   else mret tt);;
  setattr self (with_deleted (Some true));;
  session_add self.

(** [deleted] is [False] by default; [None] asks for both kinds. *)
Definition get_expired (deleted_arg : option bool) : Py Query :=
  now ← datetime_utcnow;
  let q := query_filter (col_le expires_at now)
             (query_filter (col_isnot expires_at None) Export_all) in
  let q := match deleted_arg with
           | Some d => query_filter (col_eq deleted (Some d)) q
           | None => q
           end in
  mret q.

Definition by_id (id_arg : option Z) (role_id : option Z) (deleted_arg : bool)
  : Py (option nat) :=
  let q := query_filter (col_eq id id_arg) Export_all in
  let q := match role_id with
           | Some r => query_filter (col_eq creator_id (Some r)) q
           | None => q
           end in
  let q := if negb deleted_arg then query_filter (col_eq deleted (Some false)) q else q in
  query_first q.

Definition by_role_id (role_id : option Z) (deleted_arg : bool) : Py Query :=
  let q := Export_all in
  let q := query_filter (col_eq creator_id role_id) q in
  let q := if negb deleted_arg then query_filter (col_eq deleted (Some false)) q else q in
  let q := query_order_by created_at_desc q in
  mret q.

(** [cls()]: a new instance, on which nothing is assigned yet. *)
Definition new_export : Py nat :=
  λ w, Return (next_ref w)
         (with_next_ref (S (next_ref w)) (with_objs (<[next_ref w := blank]> (objs w)) w)).

(** A timedelta is false when it is zero. *)
Definition timedelta_or (expires_after : option Z) (dflt : Z) : Z :=
  match expires_after with
  | Some d => if bool_decide (d = 0) then dflt else d
  | None => dflt
  end.

(** [collection] is a Collection, of which only the id is read. *)
Definition create (operation_arg : option string) (role_id : option Z)
    (label_arg : option string) (file_path : option Path) (expires_after : option Z)
    (collection : option (option Z)) (mime_type_arg : option string) : Py nat :=
  e ← new_export;
  setattr e (with_creator_id role_id);;
  setattr e (with_operation operation_arg);;
  setattr e (with_label label_arg);;
  match file_path with
  | Some p => set_filepath e p
  | None => mret tt
  end;;
  match collection with
  | Some cid => setattr e (with_collection_id cid)
  | None => mret tt
  end;;
  setattr e (with_mime_type mime_type_arg);;
  now ← datetime_utcnow;
  t ← datetime_add now (timedelta_or expires_after DEFAULT_EXPIRATION);
  setattr e (with_expires_at (Some t));;
  session_add e;;
  mret e.

End ExportModel.

(** ** Vocabulary of the statements *)

Definition recognized (s : string) : Prop :=
  s = STATUS_PENDING ∨ s = STATUS_SUCCESSFUL ∨ s = STATUS_FAILED.

#[global] Instance recognized_dec s : Decision (recognized s).
Proof. unfold recognized. apply _. Defined.

(** The world after [self.x = v; db.session.add(self)]. *)
Definition assigned (self : nat) (f : export → export) (w : World) : World :=
  let w1 := with_objs (<[self := f (objs w self)]> (objs w)) w in
  if bool_decide (self ∈ session w1) then w1 else with_session (session w1 ++ [self]) w1.

Definition status_assigned (self : nat) (status : string) (w : World) : World :=
  assigned self (with_export_status (Some status)) w.

(** ** Triples over [Py]: what holds after a computation returns or
    raises, given what held before *)

Definition triple {A} (P : World → Prop) (m : Py A)
    (Q : A → World → Prop) (E : exn → World → Prop) : Prop :=
  ∀ w, P w → match m w with
             | Return a w' => Q a w'
             | Raise e w' => E e w'
             end.

(** A row whose [expires_at] is set and not after [now]. *)
Definition expired_at (now : Z) (r : export) : Prop :=
  ∃ t, expires_at r = Some t ∧ t ≤ now.

#[global] Instance expired_at_dec now r : Decision (expired_at now r).
Proof.
  unfold expired_at. destruct (expires_at r) as [t|].
  - destruct (decide (t ≤ now)) as [H|H].
    + left. eauto.
    + right. intros (t' & ? & ?). simplify_eq. done.
  - right. intros (t' & ? & ?). done.
Defined.

(** The rows of the table as a query finds them. *)
Definition table (w : World) : list nat := session (autoflush w).
Definition row (w : World) (o : nat) : export := objs (autoflush w) o.

(** An instance is either untouched by the flush or was pending and is
    inserted. *)
Definition flushed (w : World) (e e' : export) : Prop :=
  e' = e ∨ (id e = None ∧ ∃ i, e' = insert_defaults (utcnow w) i e).

(** ** Sample worlds *)

(** A stored row of role 7 whose [deleted] column is NULL. *)
Definition row_null_deleted : export :=
  with_id (Some 1) (with_created_at (Some 10) (with_creator_id (Some 7) blank)).

Definition world_null_deleted : World :=
  mkWorld (λ _, row_null_deleted) 1 [0%nat] 2 ∅ ∅ [] (λ _, None) 100.

(** ** Live referrers *)

(** What the query of [_should_delete_publication] selects: a row that
    holds the same [content_hash] as [self], is not marked deleted, and
    has another [id] than the one [self] has when the method is called.
    The row is read after the flush and the [id] of [self] before it, so
    for an instance that has no [id] yet the row of [self] itself is
    selected. *)
Definition live_referrer (w : World) (self o : nat) : Prop :=
  content_hash (row w o) = content_hash (objs w self)
  ∧ deleted (row w o) ≠ Some true
  ∧ id (row w o) ≠ id (objs w self).

#[global] Instance live_referrer_dec w self o : Decision (live_referrer w self o).
Proof. unfold live_referrer. apply _. Defined.

Definition live_referrers (w : World) (self : nat) : list nat :=
  filter (live_referrer w self) (table w).

(** The call [delete_publication] may send to the store. *)
Definition reclaim_call (w : World) (self : nat) : archive_call :=
  DeletePublicationCall (namespace (objs w self)) (content_hash (objs w self)).

(** An error of the backend. *)
Definition StoreError : exn := Exn "StoreError" "backend unavailable" true.

(** One stored, published export of role 7, and a store that fails every
    call. *)
Definition row_published : export :=
  with_id (Some 1) (with_created_at (Some 10) (with_creator_id (Some 7)
    (with_deleted (Some false) (with_export_status (Some STATUS_SUCCESSFUL)
      (with_content_hash (Some "abc") blank))))).

Definition world_store_down : World :=
  mkWorld (λ _, row_published) 1 [0%nat] 2 ∅ ∅ [] (λ _, Some StoreError) 100.

(** Everything but the instances is the same in both worlds. *)
Definition same_env (w w' : World) : Prop :=
  session w' = session w ∧ files w' = files w ∧ calls w' = calls w
  ∧ published w' = published w ∧ faults w' = faults w ∧ utcnow w' = utcnow w
  ∧ next_ref w' = next_ref w ∧ next_id w' = next_id w.

(** ** Sequences of calls on the module *)

Section Calls.

Variable hexdigest : list Byte.byte → string.
Variable safe_filename : Path → option string.
Variable to_dict_dates : export → gmap string pyval.

(** A call of one of the operations the class exposes.  The two
    operations that return a query are followed by the iteration of its
    rows. *)
Inductive call :=
  | call_create (operation_arg : option string) (role_id : option Z)
      (label_arg : option string) (file_path : option Path) (expires_after : option Z)
      (collection : option (option Z)) (mime_type_arg : option string)
  | call_to_dict (self : nat)
  | call_namespace (self : nat)
  | call_publish (self : nat)
  | call_set_filepath (self : nat) (file_path : Path)
  | call_set_status (self : nat) (status : string)
  | call_delete_publication (self : nat)
  | call_should_delete_publication (self : nat)
  | call_get_expired (deleted_arg : option bool)
  | call_by_id (id_arg : option Z) (role_id : option Z) (deleted_arg : bool)
  | call_by_role_id (role_id : option Z) (deleted_arg : bool).

(** The world a call leaves, whether it returns or raises. *)
Definition run_call (c : call) (w : World) : World :=
  match c with
  | call_create op role lbl fp exp coll mime =>
      world_of (create hexdigest safe_filename op role lbl fp exp coll mime w)
  | call_to_dict self => world_of (getattr self (to_dict to_dict_dates) w)
  | call_namespace self => world_of (getattr self namespace w)
  | call_publish self => world_of (publish self w)
  | call_set_filepath self p => world_of (set_filepath hexdigest safe_filename self p w)
  | call_set_status self s => world_of (set_status self s w)
  | call_delete_publication self => world_of (delete_publication self w)
  | call_should_delete_publication self => world_of (_should_delete_publication self w)
  | call_get_expired d => world_of ((get_expired d ≫= query_rows) w)
  | call_by_id i role d => world_of (by_id i role d w)
  | call_by_role_id role d => world_of ((by_role_id role d ≫= query_rows) w)
  end.

Definition run_calls (cs : list call) (w : World) : World :=
  fold_left (λ w c, run_call c w) cs w.

End Calls.

(** The status of instance [r] in [w'] is the one it has in [w], or a
    recognized one. *)
Definition status_kept_or_recognized (w w' : World) (r : nat) : Prop :=
  export_status (objs w' r) = export_status (objs w r)
  ∨ ∃ s, export_status (objs w' r) = Some s ∧ recognized s.

(** From [w] to [w'] no instance is lost and every instance of [w] has
    kept its status or has a recognized one. *)
Definition status_step (w w' : World) : Prop :=
  (next_ref w ≤ next_ref w')%nat
  ∧ ∀ r, (r < next_ref w)%nat → status_kept_or_recognized w w' r.

(** Stand-ins for the library functions, for the examples. *)
Definition sample_digest (bs : list Byte.byte) : string :=
  "sha1:" +:+ pretty (length bs).
Definition sample_safe_filename (p : Path) : option string := Some (name p).
Definition sample_dates (r : export) : gmap string pyval := ∅.

(** An export of role 7 with a staged file, and a store that fails
    every call. *)
Definition row_staged : export :=
  with__file_path (Bound (Some ("/tmp", "export.zip")))
    (with_content_hash (Some "abc")
      (with_id (Some 1) (with_created_at (Some 10) (with_creator_id (Some 7)
        (with_deleted (Some false) (with_export_status (Some STATUS_PENDING) blank)))))).

Definition world_staged_store_down : World :=
  mkWorld (λ _, row_staged) 1 [0%nat] 2 {[ ("/tmp", "export.zip") := [x01; x02] ]} ∅ []
    (λ _, Some StoreError) 100.

(** Two pending exports of role 7 in the table, two files with the same
    bytes on the disk, and a store that works.  Then the worlds after
    each export has staged its file and after each has published. *)
Definition row_pending (i : Z) : export :=
  with_id (Some i) (with_created_at (Some 10) (with_creator_id (Some 7)
    (with_deleted (Some false) (with_export_status (Some STATUS_PENDING) blank)))).

Definition world_two_exports : World :=
  mkWorld (λ r, if decide (r = 0%nat) then row_pending 1 else row_pending 2)
    2 [0%nat; 1%nat] 3
    (<[ ("/tmp", "a.zip") := [x01; x02] ]> {[ ("/tmp", "b.zip") := [x01; x02] ]})
    ∅ [] (λ _, None) 100.

Definition world_first_staged : World :=
  world_of (set_filepath sample_digest sample_safe_filename 0 ("/tmp", "a.zip")
              world_two_exports).
Definition world_both_staged : World :=
  world_of (set_filepath sample_digest sample_safe_filename 1 ("/tmp", "b.zip")
              world_first_staged).
Definition world_first_published : World := world_of (publish 0 world_both_staged).
Definition world_both_published : World := world_of (publish 1 world_first_published).

(** ** Vocabulary of the lookups *)

(** What the optional [deleted] argument of [get_expired] asks of a row. *)
Definition deleted_matches (d : option bool) (r : export) : Prop :=
  match d with
  | Some b => deleted r = Some b
  | None => True
  end.

#[global] Instance deleted_matches_dec d r : Decision (deleted_matches d r).
Proof. destruct d; simpl; apply _. Defined.

(** What [by_id] asks of a row. *)
Definition by_id_matches (i role : option Z) (d : bool) (r : export) : Prop :=
  id r = i
  ∧ match role with Some x => creator_id r = Some x | None => True end
  ∧ (d = true ∨ deleted r = Some false).

#[global] Instance by_id_matches_dec i role d r : Decision (by_id_matches i role d r).
Proof. unfold by_id_matches. destruct role; apply _. Defined.
(** An export of role 7 whose staged file is on the disk, and a store
    that works. *)
Definition world_staged : World :=
  mkWorld (λ _, row_staged) 1 [0%nat] 2 {[ ("/tmp", "export.zip") := [x01; x02] ]} ∅ []
    (λ _, None) 100.
(** Two published exports with the same content hash, of roles 7 and 8,
    each with its blob in the store. *)
Definition row_shared (i creator : Z) : export :=
  with_id (Some i) (with_created_at (Some 10) (with_creator_id (Some creator)
    (with_deleted (Some false) (with_export_status (Some STATUS_SUCCESSFUL)
      (with_content_hash (Some "abc") blank))))).

Definition world_two_creators : World :=
  mkWorld (λ r, if decide (r = 0%nat) then row_shared 1 7 else row_shared 2 8)
    2 [0%nat; 1%nat] 3 ∅
    ({[ (Some "role:7", Some "abc") ]} ∪ {[ (Some "role:8", Some "abc") ]})
    [] (λ _, None) 100.

(** One published export, alone with its content hash, and a store that
    works. *)
Definition world_one_published : World :=
  mkWorld (λ _, row_published) 1 [0%nat] 2 ∅ {[ (Some "role:7", Some "abc") ]} []
    (λ _, None) 100.
(** ** What [create] leaves *)

(** Everything but the instance [e] and the reference counter is the
    same in both worlds. *)
Definition create_env (w : World) (e : nat) (w' : World) : Prop :=
  (∀ o, o ≠ e → objs w' o = objs w o)
  ∧ session w' = session w ∧ files w' = files w ∧ calls w' = calls w
  ∧ published w' = published w ∧ faults w' = faults w ∧ utcnow w' = utcnow w
  ∧ next_id w' = next_id w ∧ next_ref w' = S (next_ref w).

Section Created.

Variable hexdigest : list Byte.byte → string.
Variable safe_filename : Path → option string.

(** The attributes [set_filepath] assigns for the file at [p], when
    there is one. *)
Definition staged (w : World) (fp : option Path) (e : export) : export :=
  match fp with
  | Some p =>
      match files w !! p with
      | Some bs =>
          with_content_hash (Some (hexdigest bs))
            (with__file_path (Bound (Some p))
              (with_file_size (Some (Z.of_nat (length bs)))
                (with_file_name (safe_filename p) e)))
      | None => e
      end
  | None => e
  end.

(** The instance [create] has built when it returns at time [t]. *)
Definition created (w : World) (op : option string) (role : option Z)
    (lbl : option string) (fp : option Path) (coll : option (option Z))
    (mime : option string) (t : Z) : export :=
  with_expires_at (Some t)
    (with_mime_type mime
      (match coll with
       | Some cid => with_collection_id cid
       | None => λ e, e
       end (staged w fp (with_label lbl (with_operation op (with_creator_id role blank)))))).

End Created.
(** What a store interrupted from the keyboard raises: not an
    [Exception]. *)
Definition KeyboardInterrupt : exn := Exn "KeyboardInterrupt" EmptyString false.

Definition world_staged_interrupted : World :=
  mkWorld (λ _, row_staged) 1 [0%nat] 2 {[ ("/tmp", "export.zip") := [x01; x02] ]} ∅ []
    (λ _, Some KeyboardInterrupt) 100.

(** An export with a content hash that is in the session but was never
    flushed, alone in the table, and its blob in the store. *)
Definition row_unflushed : export :=
  with_creator_id (Some 7) (with_content_hash (Some "abc")
    (with_export_status (Some STATUS_SUCCESSFUL) blank)).

Definition world_unflushed : World :=
  mkWorld (λ _, row_unflushed) 1 [0%nat] 1 ∅ {[ (Some "role:7", Some "abc") ]} []
    (λ _, None) 100.

(** ** Other records that refer to the blob of an export *)

(** A row of another instance than [self] that holds the same
    [content_hash] as [self], is not marked deleted, and has another
    [id] than [self]. *)
Definition other_live_record (w : World) (self o : nat) : Prop :=
  o ≠ self
  ∧ content_hash (row w o) = content_hash (objs w self)
  ∧ deleted (row w o) ≠ Some true
  ∧ id (row w o) ≠ id (objs w self).

#[global] Instance other_live_record_dec w self o : Decision (other_live_record w self o).
Proof. unfold other_live_record. apply _. Defined.

Definition other_live_records (w : World) (self : nat) : list nat :=
  filter (other_live_record w self) (table w).

(** ** The deleted flag of stored rows *)

(** Every instance that has a primary key has a [deleted] flag that is
    true or false: the column is written by the INSERT, with its default
    [False], and by [delete_publication], with [True], only. *)
Definition deleted_flags_set (w : World) : Prop :=
  ∀ o, id (objs w o) ≠ None → deleted (objs w o) ≠ None.

(** * Properties *)

Ltac py_unfold :=
  unfold mbind, mret, Py_bind, Py_ret, raise, try_except, getattr, setattr,
    modify, session_add, datetime_utcnow, datetime_add in *.

(** ** The recognized statuses *)

Lemma EXPORT_STATUS_Some s lbl :
  EXPORT_STATUS !! s = Some lbl → recognized s ∧ lbl = PyLazy s.
Proof.
  unfold EXPORT_STATUS, recognized. intros H.
  destruct (decide (s = STATUS_PENDING)) as [-> | N1].
  { rewrite lookup_insert_eq in H. simplify_eq. auto. }
  rewrite lookup_insert_ne in H by done.
  destruct (decide (s = STATUS_SUCCESSFUL)) as [-> | N2].
  { rewrite lookup_insert_eq in H. simplify_eq. auto. }
  rewrite lookup_insert_ne in H by done.
  destruct (decide (s = STATUS_FAILED)) as [-> | N3].
  { rewrite lookup_insert_eq in H. simplify_eq. auto. }
  rewrite lookup_insert_ne in H by done.
  by rewrite lookup_empty in H.
Qed.

Lemma EXPORT_STATUS_None s : EXPORT_STATUS !! s = None → ¬ recognized s.
Proof.
  intros H [-> | [-> | ->]]; vm_compute in H; discriminate.
Qed.

Lemma EXPORT_STATUS_recognized s : recognized s → EXPORT_STATUS !! s = Some (PyLazy s).
Proof. intros [-> | [-> | ->]]; reflexivity. Qed.

Lemma set_status_eq w self status :
  set_status self status w =
    Return tt (if bool_decide (recognized status) then status_assigned self status w else w).
Proof.
  unfold set_status. destruct (EXPORT_STATUS !! status) as [lbl|] eqn:E.
  - apply EXPORT_STATUS_Some in E as [R _].
    rewrite bool_decide_eq_true_2 by done. reflexivity.
  - apply EXPORT_STATUS_None in E.
    rewrite bool_decide_eq_false_2 by done. reflexivity.
Qed.

(** C7.  [set_status] never raises.  For a recognized status the
    instance gets that status, every other attribute of it and every
    other instance stay as they were, and the instance is in the
    session; for any other string the world is left exactly as it was. *)
Theorem set_status_recognized_only (w : World) (self : nat) (status : string) :
  ∃ w', set_status self status w = Return tt w' ∧
    if bool_decide (status = "pending" ∨ status = "successful" ∨ status = "failed")
    then objs w' self = with_export_status (Some status) (objs w self)
         ∧ (∀ o, o ≠ self → objs w' o = objs w o)
         ∧ self ∈ session w'
         ∧ (∀ o, o ∈ session w → o ∈ session w')
    else w' = w.
Proof.
  rewrite set_status_eq. eexists; split; [reflexivity|].
  change (status = "pending" ∨ status = "successful" ∨ status = "failed")
    with (recognized status).
  destruct (bool_decide (recognized status)); [|reflexivity].
  unfold status_assigned, assigned; simpl.
  case_bool_decide as Hin; simpl.
  - split_and!; [apply fn_lookup_insert| |done|done].
    intros o Ho. by apply fn_lookup_insert_ne.
  - split_and!; [apply fn_lookup_insert| | |].
    + intros o Ho. by apply fn_lookup_insert_ne.
    + apply elem_of_app. right. by apply list_elem_of_singleton.
    + intros o Ho. apply elem_of_app. by left.
Qed.

(** ** Publishing without a staged file *)

Section Publication.

Variable hexdigest : list Byte.byte → string.
Variable safe_filename : Path → option string.

Lemma publish_unstaged (w : World) (self : nat) :
  match _file_path (objs w self) with
  | Absent =>
      publish self w =
        Raise (AttributeError "'Export' object has no attribute '_file_path'") w
  | Bound None =>
      publish self w = Raise (RuntimeError "file path not present for export: %r") w
  | Bound (Some _) => True
  end.
Proof.
  unfold publish, get__file_path. py_unfold.
  destruct (_file_path (objs w self)) as [|[fp|]] eqn:E; [reflexivity|done|reflexivity].
Qed.

(** The world [create] reaches when no file is given and the expiry is
    in range. *)
Lemma create_without_file (w : World) op role lbl exp coll mime :
  match create hexdigest safe_filename op role lbl None exp coll mime w with
  | Return e w' =>
      e = next_ref w ∧ _file_path (objs w' e) = Absent
      ∧ export_status (objs w' e) = None
  | Raise ex _ => ex = OverflowError "date value out of range"
  end.
Proof.
  unfold create, new_export. py_unfold. simpl.
  destruct coll as [cid|]; simpl; case_bool_decide; simpl; try reflexivity;
    (split; [reflexivity|]); case_bool_decide; simpl;
    rewrite !fn_lookup_insert; done.
Qed.

(** C1.  An export that [create] built without a file has no
    [_file_path] attribute: [publish] fails on reading it, with an
    [AttributeError] rather than with the error of its guard, and the
    world (so also [export_status]) is as [create] left it. *)
Theorem publish_after_create_without_file (w : World) op role lbl exp coll mime :
  match create hexdigest safe_filename op role lbl None exp coll mime w with
  | Return e w' =>
      publish e w' =
        Raise (AttributeError "'Export' object has no attribute '_file_path'") w'
  | Raise ex _ => ex = OverflowError "date value out of range"
  end.
Proof.
  pose proof (create_without_file w op role lbl exp coll mime) as H.
  destruct (create _ _ _ _ _ _ _ _ _ w) as [e w'|ex w']; [|done].
  destruct H as (_ & Hfp & _).
  pose proof (publish_unstaged w' e) as P. by rewrite Hfp in P.
Qed.
End Publication.

(** ** Serialization *)

Section Serialization.

Variable to_dict_dates : export → gmap string pyval.

Lemma to_dict_lookup_export_status (self : export) :
  to_dict to_dict_dates self !! "export_status"
    = Some (py_opt PyStr (export_status self)).
Proof.
  unfold to_dict. apply lookup_union_Some_l.
  rewrite !list_to_map_cons.
  repeat (rewrite lookup_insert_ne by discriminate). apply lookup_insert_eq.
Qed.

(** C4.  The map [to_dict] returns carries under [export_status] the
    raw stored status, also when it is one of the three recognized
    values: the label stored first is overwritten by the update that
    follows. *)
Theorem to_dict_export_status_raw (self : export) :
  to_dict to_dict_dates self !! "export_status"
    = Some (py_opt PyStr (export_status self)).
Proof. apply to_dict_lookup_export_status. Qed.

(** The label is a lazy string, never the raw string. *)
Lemma to_dict_label_lost (self : export) (s : string) :
  export_status self = Some s → recognized s →
  EXPORT_STATUS !! s = Some (PyLazy s)
  ∧ to_dict to_dict_dates self !! "export_status" = Some (PyStr s)
  ∧ PyStr s ≠ PyLazy s.
Proof.
  intros E R. split_and!; [by apply EXPORT_STATUS_recognized | | done].
  rewrite to_dict_lookup_export_status, E. reflexivity.
Qed.

(** The keys are those of [to_dict_dates] and the twelve of the
    update; [_file_path] is not among the twelve. *)
Lemma to_dict_no_file_path (self : export) :
  to_dict_dates self !! "_file_path" = None →
  to_dict to_dict_dates self !! "_file_path" = None.
Proof.
  intros H. unfold to_dict. apply lookup_union_None. split.
  - rewrite !list_to_map_cons, list_to_map_nil.
    repeat (rewrite lookup_insert_ne by discriminate). apply lookup_empty.
  - destruct (export_status self ≫= _); [|done].
    rewrite lookup_insert_ne by discriminate. done.
Qed.

End Serialization.

(** ** Rules for triples *)

Lemma triple_bind {A B} (P : World → Prop) (m : Py A) (k : A → Py B)
    (Q1 : A → World → Prop) (Q : B → World → Prop) (E : exn → World → Prop) :
  triple P m Q1 E → (∀ a, triple (Q1 a) (k a) Q E) → triple P (m ≫= k) Q E.
Proof.
  intros Hm Hk w Hw. specialize (Hm w Hw). unfold mbind, Py_bind.
  destruct (m w) as [a w'|e w']; [by apply Hk | done].
Qed.

Lemma triple_ret {A} (P : World → Prop) (a : A) (Q : A → World → Prop) E :
  (∀ w, P w → Q a w) → triple P (mret a) Q E.
Proof. intros H w Hw. by apply H. Qed.

Lemma triple_weaken {A} (P P' : World → Prop) (m : Py A) (Q Q' : A → World → Prop)
    (E E' : exn → World → Prop) :
  triple P' m Q' E' → (∀ w, P w → P' w) → (∀ a w, Q' a w → Q a w) →
  (∀ e w, E' e w → E e w) → triple P m Q E.
Proof.
  intros H HP HQ HE w Hw. specialize (H w (HP w Hw)).
  destruct (m w); eauto.
Qed.

(** A step that only assigns an attribute. *)
Lemma triple_setattr (P : World → Prop) self f (Q : unit → World → Prop) E :
  (∀ w, P w → Q tt (with_objs (<[self := f (objs w self)]> (objs w)) w)) →
  triple P (setattr self f) Q E.
Proof. intros H w Hw. by apply H. Qed.

Section Creation.

Variable hexdigest : list Byte.byte → string.
Variable safe_filename : Path → option string.

(** Staging changes neither the clock nor the disk, and fails only
    when the file is missing. *)
Lemma set_filepath_frame (w0 : World) self p :
  triple (λ w, utcnow w = utcnow w0 ∧ files w = files w0)
    (set_filepath hexdigest safe_filename self p)
    (λ _ w, utcnow w = utcnow w0 ∧ files w = files w0)
    (λ _ _, files w0 !! p = None).
Proof.
  intros w [Hu Hf]. unfold set_filepath, stat_size, checksum. py_unfold.
  rewrite Hf. destruct (files w0 !! p); simpl; done.
Qed.

(** C10.  Whenever [create] returns, [expires_at] of the new export is
    the clock plus the given duration, or plus thirty days when no
    duration or a zero duration is given: it is never null.  [create]
    raises only when the file to stage is missing or the sum leaves
    the range of datetimes. *)
Theorem create_expires_at (w : World) op role lbl fp exp coll mime :
  let thirty_days := 30 * 24 * 3600 * 1000000 in
  let after := match exp with
               | Some d => if bool_decide (d = 0) then thirty_days else d
               | None => thirty_days
               end in
  match create hexdigest safe_filename op role lbl fp exp coll mime w with
  | Return e w' => expires_at (objs w' e) = Some (utcnow w + after)
  | Raise ex w' =>
      (∃ p, fp = Some p ∧ files w !! p = None)
      ∨ ¬ (0 ≤ utcnow w + after < DATETIME_END)
  end.
Proof.
  intros thirty_days after.
  assert (timedelta_or exp DEFAULT_EXPIRATION = after) as Hafter by reflexivity.
  set (I := λ w' : World, utcnow w' = utcnow w ∧ files w' = files w).
  set (E := λ (_ : exn) (_ : World),
         (∃ p, fp = Some p ∧ files w !! p = None)
         ∨ ¬ (0 ≤ utcnow w + after < DATETIME_END)).
  cut (triple (λ w', w' = w)
         (create hexdigest safe_filename op role lbl fp exp coll mime)
         (λ e w', expires_at (objs w' e) = Some (utcnow w + after)) E).
  { intros H. exact (H w eq_refl). }
  unfold create.
  apply triple_bind with (Q1 := λ _, I).
  { intros w' Hw'. subst w'. by split. }
  intros e.
  do 3 (apply triple_bind with (Q1 := λ _, I); [by apply triple_setattr|intros _]).
  apply triple_bind with (Q1 := λ _, I).
  { destruct fp as [p|]; [|by apply triple_ret].
    eapply triple_weaken; [apply (set_filepath_frame w)|done|done|].
    intros ? ? Hp. left. eauto. }
  intros _.
  apply triple_bind with (Q1 := λ _, I).
  { destruct coll; [by apply triple_setattr|by apply triple_ret]. }
  intros _.
  apply triple_bind with (Q1 := λ _, I); [by apply triple_setattr|intros _].
  apply triple_bind with (Q1 := λ now w', now = utcnow w).
  { by intros w' [Hu _]. }
  intros now.
  apply triple_bind with (Q1 := λ t w', t = utcnow w + after).
  { intros w' Hw'. subst now. unfold datetime_add, mret, Py_ret, raise. rewrite Hafter.
    case_bool_decide; [done|by right]. }
  intros t.
  apply triple_bind with (Q1 := λ _ w', expires_at (objs w' e) = Some (utcnow w + after)).
  { apply triple_setattr. intros w' Hw'. subst t. simpl. by rewrite fn_lookup_insert. }
  intros _.
  apply triple_bind with (Q1 := λ _ w', expires_at (objs w' e) = Some (utcnow w + after)).
  { intros w' Hw'. unfold session_add, modify. by case_bool_decide. }
  intros _. by apply triple_ret.
Qed.

End Creation.

(** ** The flush of the session *)

Lemma flush_one_frame w o :
  session (flush_one w o) = session w ∧ utcnow (flush_one w o) = utcnow w
  ∧ files (flush_one w o) = files w ∧ calls (flush_one w o) = calls w
  ∧ faults (flush_one w o) = faults w ∧ published (flush_one w o) = published w
  ∧ next_ref (flush_one w o) = next_ref w.
Proof. unfold flush_one. by destruct (id (objs w o)). Qed.

Lemma fold_flush_frame l w :
  session (fold_left flush_one l w) = session w
  ∧ utcnow (fold_left flush_one l w) = utcnow w
  ∧ files (fold_left flush_one l w) = files w
  ∧ calls (fold_left flush_one l w) = calls w
  ∧ faults (fold_left flush_one l w) = faults w
  ∧ published (fold_left flush_one l w) = published w
  ∧ next_ref (fold_left flush_one l w) = next_ref w.
Proof.
  revert w. induction l as [|o l IH]; intros w; simpl; [done|].
  destruct (IH (flush_one w o)) as (-> & -> & -> & -> & -> & -> & ->).
  apply flush_one_frame.
Qed.

Lemma autoflush_frame w :
  session (autoflush w) = session w ∧ utcnow (autoflush w) = utcnow w
  ∧ files (autoflush w) = files w ∧ calls (autoflush w) = calls w
  ∧ faults (autoflush w) = faults w ∧ published (autoflush w) = published w
  ∧ next_ref (autoflush w) = next_ref w.
Proof. apply fold_flush_frame. Qed.

Lemma flush_one_objs w o o' : flushed w (objs w o') (objs (flush_one w o) o').
Proof.
  unfold flush_one, flushed. destruct (id (objs w o)) eqn:E; [by left|]. simpl.
  destruct (decide (o = o')) as [<-|N].
  - rewrite fn_lookup_insert. right. eauto.
  - rewrite fn_lookup_insert_ne by done. by left.
Qed.

Lemma fold_flush_objs l w o' :
  flushed w (objs w o') (objs (fold_left flush_one l w) o').
Proof.
  revert w. induction l as [|o l IH]; intros w; simpl; [by left|].
  specialize (IH (flush_one w o)).
  destruct (flush_one_frame w o) as (_ & Hu & _). unfold flushed in *. rewrite Hu in IH.
  destruct (flush_one_objs w o o') as [E1|(N1 & i & E1)]; rewrite E1 in IH; [done|].
  destruct IH as [E2|(N2 & _)]; [|done].
  right. split; [done|]. exists i. done.
Qed.

Lemma autoflush_objs w o : flushed w (objs w o) (objs (autoflush w) o).
Proof. apply fold_flush_objs. Qed.

Lemma fold_flush_id l w o :
  o ∈ l → id (objs (fold_left flush_one l w) o) ≠ None.
Proof.
  revert w. induction l as [|a l IH]; intros w Hin; [by apply elem_of_nil in Hin|].
  simpl. apply elem_of_cons in Hin as [->|Hin]; [|by apply IH].
  assert (id (objs (flush_one w a) a) ≠ None) as Ha.
  { unfold flush_one. destruct (id (objs w a)) eqn:E; [by rewrite E|].
    simpl. by rewrite fn_lookup_insert. }
  destruct (fold_flush_objs l (flush_one w a) a) as [->|(N & _)]; done.
Qed.

Lemma autoflush_id w o : o ∈ session w → id (objs (autoflush w) o) ≠ None.
Proof. apply fold_flush_id. Qed.

Lemma fold_flush_persistent l w :
  (∀ o, o ∈ l → id (objs w o) ≠ None) → fold_left flush_one l w = w.
Proof.
  induction l as [|a l IH]; intros H; simpl; [done|].
  assert (flush_one w a = w) as ->.
  { unfold flush_one. destruct (id (objs w a)) eqn:E; [done|].
    exfalso. apply (H a); [by left|done]. }
  apply IH. intros o Ho. apply H. by right.
Qed.

Lemma autoflush_persistent w :
  (∀ o, o ∈ session w → id (objs w o) ≠ None) → autoflush w = w.
Proof. apply fold_flush_persistent. Qed.

Lemma autoflush_idemp w : autoflush (autoflush w) = autoflush w.
Proof.
  apply autoflush_persistent. intros o Ho.
  destruct (autoflush_frame w) as (Hs & _). rewrite Hs in Ho.
  by apply autoflush_id.
Qed.

(** What the flush keeps of an instance. *)
Lemma flushed_keeps w e e' :
  flushed w e e' →
  content_hash e' = content_hash e ∧ creator_id e' = creator_id e
  ∧ expires_at e' = expires_at e ∧ mime_type e' = mime_type e
  ∧ _file_path e' = _file_path e
  ∧ (id e ≠ None → e' = e)
  ∧ (∀ b, deleted e = Some b → deleted e' = Some b)
  ∧ (deleted e = None → deleted e' = None ∨ deleted e' = Some false)
  ∧ (∀ s, export_status e = Some s → export_status e' = Some s)
  ∧ (export_status e = None →
     export_status e' = None ∨ export_status e' = Some STATUS_PENDING).
Proof.
  intros [->|(N & i & ->)].
  - split_and!; auto.
  - split_and!; simpl; auto.
    all: intros; try congruence.
    all: repeat match goal with H : _ = _ |- _ => rewrite H end; simpl; auto.
Qed.

(** ** Expired exports *)

Lemma query_rows_unordered (cs : list (export → option bool)) (w : World) :
  query_rows (mkQuery cs None) w
  = Return (filter (λ o, Forall (λ c, c (row w o) = Some true) cs) (table w))
      (autoflush w).
Proof. reflexivity. Qed.

(** C8.  Run at once, the query [get_expired()] builds with its default
    argument returns, in the order of the table, exactly the rows whose
    [expires_at] is set and not after the clock and whose [deleted] is
    false; a row whose [expires_at] is null is not among them. *)
Theorem get_expired_default (w : World) :
  ∃ rows,
    (get_expired (Some false) ≫= query_rows) w = Return rows (autoflush w)
    ∧ rows = filter (λ o, expired_at (utcnow w) (row w o)
                          ∧ deleted (row w o) = Some false) (table w)
    ∧ (∀ o, o ∈ rows ↔
         o ∈ table w
         ∧ (∃ t, expires_at (row w o) = Some t ∧ t ≤ utcnow w)
         ∧ deleted (row w o) = Some false)
    ∧ (∀ o, o ∈ rows → expires_at (row w o) ≠ None).
Proof.
  eexists. split; [reflexivity|].
  assert (∀ o,
    selects (mkQuery
      [col_isnot expires_at None; col_le expires_at (utcnow w);
       col_eq deleted (Some false)] None) (row w o)
    ↔ expired_at (utcnow w) (row w o) ∧ deleted (row w o) = Some false) as Hsel.
  { intros o. unfold selects, expired_at, col_isnot, col_le, col_eq. simpl.
    rewrite !Forall_cons, Forall_nil.
    destruct (expires_at (row w o)) as [t|]; destruct (deleted (row w o)) as [[]|]; simpl.
    all: split; [intros (H1 & H2 & H3 & _) | intros ((t' & Ht & Hle) & Hd)].
    all: simplify_eq/=; repeat case_bool_decide; naive_solver. }
  split_and!.
  - simpl. apply list_filter_iff. intros o. apply Hsel.
  - intros o. simpl. rewrite list_elem_of_filter. fold (row w o). fold (table w).
    rewrite Hsel. unfold expired_at. tauto.
  - intros o. simpl. rewrite list_elem_of_filter. fold (row w o).
    rewrite Hsel. unfold expired_at. intros [[(t & -> & _) _] _]. done.
Qed.

(** ** Exports of a role *)

#[global] Instance created_desc_total w : Total (created_desc w).
Proof.
  intros a b. unfold created_desc, newer_or_same.
  destruct (created_at (objs w a)), (created_at (objs w b)); auto. lia.
Qed.

#[global] Instance created_desc_trans w : Transitive (created_desc w).
Proof.
  intros a b c. unfold created_desc, newer_or_same.
  destruct (created_at (objs w a)), (created_at (objs w b)), (created_at (objs w c));
    auto; try done. lia.
Qed.

Lemma selects_by_role_id (role_id : option Z) (r : export) :
  selects (mkQuery [col_eq creator_id role_id; col_eq deleted (Some false)]
             (Some created_at_desc)) r
  ↔ creator_id r = role_id ∧ deleted r = Some false.
Proof.
  unfold selects, col_eq. simpl. rewrite !Forall_cons, Forall_nil.
  destruct role_id as [x|], (creator_id r) as [c|], (deleted r) as [[]|]; simpl.
  all: split; [intros (H1 & H2 & _) | intros (H1 & H2)].
  all: simplify_eq/=; repeat case_bool_decide; try done; try congruence.
  all: split_and!; congruence.
Qed.

(** The criterion is [deleted = false], which is not true of NULL: a
    row of role 7 whose [deleted] were NULL, which no method of the model
    writes, would be left out by [by_role_id(7)]. *)
Lemma by_role_id_drops_null_deleted :
  0%nat ∈ table world_null_deleted
  ∧ creator_id (row world_null_deleted 0) = Some 7
  ∧ deleted (row world_null_deleted 0) ≠ Some true
  ∧ (by_role_id (Some 7) false ≫= query_rows) world_null_deleted
    = Return [] world_null_deleted.
Proof.
  split_and!; [by apply list_elem_of_singleton|reflexivity|discriminate|reflexivity].
Qed.

(** Run at once, the query [by_role_id(role_id)] builds with its default
    argument returns the rows whose [creator_id] equals the role id and
    whose [deleted] is false, each as often as the table holds it, every
    row before the rows created earlier. *)
Lemma by_role_id_default (w : World) (role_id : option Z) :
  ∃ rows,
    (by_role_id role_id false ≫= query_rows) w = Return rows (autoflush w)
    ∧ rows ≡ₚ filter (λ o, creator_id (row w o) = role_id
                           ∧ deleted (row w o) = Some false) (table w)
    ∧ (∀ o, o ∈ rows ↔
         o ∈ table w ∧ creator_id (row w o) = role_id
         ∧ deleted (row w o) = Some false)
    ∧ StronglySorted
        (λ a b, newer_or_same (created_at (row w a)) (created_at (row w b))) rows.
Proof.
  eexists. split; [reflexivity|]. simpl.
  assert (merge_sort (created_desc (autoflush w))
            (filter (λ o, selects
               (mkQuery [col_eq creator_id role_id; col_eq deleted (Some false)]
                  (Some created_at_desc)) (objs (autoflush w) o))
               (session (autoflush w)))
          ≡ₚ filter (λ o, creator_id (row w o) = role_id
                          ∧ deleted (row w o) = Some false) (table w)) as HP.
  { rewrite merge_sort_Permutation.
    erewrite list_filter_iff; [reflexivity|].
    intros o. apply selects_by_role_id. }
  split_and!.
  - exact HP.
  - intros o. rewrite HP, list_elem_of_filter. tauto.
  - apply (StronglySorted_merge_sort (created_desc (autoflush w))).
Qed.

(** ** Reclaiming a publication *)

Lemma filter_iff_in {A} (P1 P2 : A → Prop) `{!∀ x, Decision (P1 x), !∀ x, Decision (P2 x)}
    (l : list A) :
  (∀ x, x ∈ l → (P1 x ↔ P2 x)) → filter P1 l = filter P2 l.
Proof.
  induction l as [|a l IH]; intros Hl; [done|].
  rewrite !filter_cons.
  rewrite IH by (intros x Hx; apply Hl; by right).
  destruct (decide (P1 a)) as [H1|H1], (decide (P2 a)) as [H2|H2]; try done.
  - exfalso. apply H2, Hl; [by left|done].
  - exfalso. apply H1, Hl; [by left|done].
Qed.

Lemma selects_live_referrer (h : option string) (i : option Z) (r : export) :
  id r ≠ None →
  selects (mkQuery [col_eq content_hash h; col_isnot deleted (Some true); col_ne id i]
             None) r
  ↔ content_hash r = h ∧ deleted r ≠ Some true ∧ id r ≠ i.
Proof.
  intros Hid. unfold selects, col_eq, col_isnot, col_ne. simpl.
  rewrite !Forall_cons, Forall_nil.
  destruct h as [x|], (content_hash r) as [c|], i as [j|], (id r) as [k|]; simpl;
    try done.
  all: split; [intros (H1 & H2 & H3 & _) | intros (H1 & H2 & H3)].
  all: simplify_eq/=; repeat case_bool_decide; try done; try congruence.
  all: split_and!; congruence.
Qed.

Lemma should_delete_publication_eq (w : World) (self : nat) :
  _should_delete_publication self w
  = Return (bool_decide (live_referrers w self = [])) (autoflush w).
Proof.
  unfold _should_delete_publication, query_first. py_unfold. simpl.
  f_equal. fold (table w).
  rewrite (filter_iff_in _ (live_referrer w self)).
  - fold (live_referrers w self). destruct (live_referrers w self); reflexivity.
  - intros o Ho. apply selects_live_referrer.
    apply autoflush_id. unfold table in Ho.
    destruct (autoflush_frame w) as (Hs & _). by rewrite Hs in Ho.
Qed.

Lemma namespace_flushed w e e' : flushed w e e' → namespace e' = namespace e.
Proof.
  intros H. apply flushed_keeps in H as (_ & Hc & _). unfold namespace. by rewrite Hc.
Qed.

(** C2, the counterexample.  The export is the only referrer of its
    blob and the store answers the call with an error: the error
    reaches the caller and [deleted] is still false. *)
Lemma delete_publication_store_error :
  live_referrers world_store_down 0 = []
  ∧ ∃ w', delete_publication 0 world_store_down = Raise StoreError w'
          ∧ calls w' = [DeletePublicationCall (Some "role:7") (Some "abc")]
          ∧ deleted (objs w' 0) = Some false.
Proof. split; [reflexivity|]. eexists. split_and!; reflexivity. Qed.

(** Every way [delete_publication] can end, in terms of the rows its
    query finds: the store is sent the call for the namespace and content
    hash of the export exactly when the query finds none.  When the
    method returns, the export is marked deleted and is in the session;
    when the store answers with an error, the error reaches the caller
    and the instance is as the flush left it. *)
Lemma delete_publication_effect (w : World) (self : nat) :
  let sent := if bool_decide (live_referrers w self = [])
              then [reclaim_call w self] else [] in
  match delete_publication self w with
  | Return _ w' =>
      calls w' = calls w ++ sent
      ∧ deleted (objs w' self) = Some true
      ∧ self ∈ session w'
      ∧ (sent = [] ∨ faults w (length (calls w)) = None)
  | Raise e w' =>
      calls w' = calls w ++ sent
      ∧ sent = [reclaim_call w self]
      ∧ faults w (length (calls w)) = Some e
      ∧ objs w' self = row w self
  end.
Proof.
  intros sent. subst sent.
  unfold delete_publication. unfold mbind at 1. unfold Py_bind.
  rewrite should_delete_publication_eq.
  destruct (autoflush_frame w) as (Hs & _ & _ & Hc & Hf & _).
  pose proof (autoflush_objs w self) as Hfl.
  pose proof (namespace_flushed _ _ _ Hfl) as Hns.
  apply flushed_keeps in Hfl as (Hh & _).
  case_bool_decide as Hl.
  - unfold archive_delete_publication. py_unfold. simpl.
    rewrite Hc, Hf. unfold reclaim_call. rewrite Hns, Hh.
    destruct (faults w (length (calls w))) as [e|] eqn:Ef; simpl.
    + done.
    + case_bool_decide as Hin; simpl; rewrite fn_lookup_insert.
      * split_and!; [done|done|done|by right].
      * split_and!; [done|done| |by right].
        apply elem_of_app. right. by apply list_elem_of_singleton.
  - py_unfold. simpl. rewrite app_nil_r.
    case_bool_decide as Hin; simpl; rewrite fn_lookup_insert.
    + split_and!; [done|done|done|by left].
    + split_and!; [done|done| |by left].
      apply elem_of_app. right. by apply list_elem_of_singleton.
Qed.

(** ** Publication *)

Lemma recognized_failed : recognized STATUS_FAILED.
Proof. unfold recognized. auto. Qed.

Lemma recognized_successful : recognized STATUS_SUCCESSFUL.
Proof. unfold recognized. auto. Qed.

Lemma assigned_frame self f w :
  objs (assigned self f w) self = f (objs w self)
  ∧ (∀ o, o ≠ self → objs (assigned self f w) o = objs w o)
  ∧ calls (assigned self f w) = calls w
  ∧ files (assigned self f w) = files w
  ∧ published (assigned self f w) = published w
  ∧ faults (assigned self f w) = faults w
  ∧ utcnow (assigned self f w) = utcnow w
  ∧ next_ref (assigned self f w) = next_ref w
  ∧ next_id (assigned self f w) = next_id w
  ∧ self ∈ session (assigned self f w)
  ∧ (∀ o, o ∈ session (assigned self f w) ↔ o = self ∨ o ∈ session w).
Proof.
  unfold assigned. simpl. case_bool_decide as Hin; simpl.
  - split_and!; try done; [apply fn_lookup_insert| |].
    + intros o Ho. by apply fn_lookup_insert_ne.
    + intros o. split; [by right|]. by intros [-> | ?].
  - split_and!; try done; [apply fn_lookup_insert| | |].
    + intros o Ho. by apply fn_lookup_insert_ne.
    + apply elem_of_app. right. by apply list_elem_of_singleton.
    + intros o. rewrite elem_of_app, list_elem_of_singleton. tauto.
Qed.

(** Every way [publish] can end. *)
Lemma publish_eq (w : World) (self : nat) :
  publish self w =
    match _file_path (objs w self) with
    | Absent => Raise (AttributeError "'Export' object has no attribute '_file_path'") w
    | Bound None => Raise (RuntimeError "file path not present for export: %r") w
    | Bound (Some fp) =>
        match content_hash (objs w self) with
        | None =>
            Raise (TypeError "expected str, bytes or os.PathLike object, not NoneType") w
        | Some h =>
            match files w !! fp with
            | None => Raise (FileNotFoundError "No such file or directory") w
            | Some bs =>
                let path := (parent fp, h) in
                let w1 := with_files (<[path := bs]> (delete fp (files w))) w in
                let w2 := with_calls
                            (calls w ++ [PublishCall (namespace (objs w self)) path
                                           (mime_type (objs w self))]) w1 in
                match faults w (length (calls w)) with
                | Some e =>
                    if derives_Exception e
                    then Raise e (status_assigned self STATUS_FAILED w2)
                    else Raise e w2
                | None =>
                    Return tt
                      (status_assigned self STATUS_SUCCESSFUL
                         (with_published
                            ({[ (namespace (objs w self), Some h) ]} ∪ published w) w2))
                end
            end
        end
    end.
Proof.
  unfold publish, get__file_path, Path_join, rename, archive_publish. py_unfold.
  destruct (_file_path (objs w self)) as [|[fp|]]; simpl; try reflexivity.
  destruct (content_hash (objs w self)) as [h|]; simpl; try reflexivity.
  destruct (files w !! fp) as [bs|]; simpl; try reflexivity.
  destruct (faults w (length (calls w))) as [e|]; simpl.
  - destruct (derives_Exception e); [|reflexivity].
    rewrite set_status_eq, bool_decide_eq_true_2 by apply recognized_failed.
    reflexivity.
  - rewrite set_status_eq, bool_decide_eq_true_2 by apply recognized_successful.
    reflexivity.
Qed.

(** C3.  The export has a staged file on the disk and the store answers
    the publish call with an error [e]: [publish] raises that very [e],
    and the world it leaves already holds [export_status = failed]. *)
Theorem publish_store_failure (w : World) (self : nat) (fp : Path) (h : string)
    (bs : list Byte.byte) (e : exn) :
  _file_path (objs w self) = Bound (Some fp) →
  content_hash (objs w self) = Some h →
  files w !! fp = Some bs →
  faults w (length (calls w)) = Some e →
  derives_Exception e = true →
  ∃ w', publish self w = Raise e w'
        ∧ export_status (objs w' self) = Some "failed"
        ∧ calls w' = calls w ++ [PublishCall (namespace (objs w self)) (parent fp, h)
                                   (mime_type (objs w self))].
Proof.
  intros Hfp Hh Hfile Hfault Hexn.
  rewrite publish_eq, Hfp, Hh, Hfile, Hfault, Hexn. simpl.
  eexists. split; [reflexivity|].
  unfold status_assigned.
  match goal with |- context [assigned ?s ?g ?w0] =>
    destruct (assigned_frame s g w0) as (Ho & _ & Hc & _) end.
  rewrite Ho, Hc. done.
Qed.

(** An exception of the store that is not an [Exception] passes through
    [publish] untouched, and the status stays as it was. *)
Lemma publish_store_interrupt (w : World) (self : nat) (fp : Path) (h : string)
    (bs : list Byte.byte) (e : exn) :
  _file_path (objs w self) = Bound (Some fp) →
  content_hash (objs w self) = Some h →
  files w !! fp = Some bs →
  faults w (length (calls w)) = Some e →
  derives_Exception e = false →
  ∃ w', publish self w = Raise e w'
        ∧ export_status (objs w' self) = export_status (objs w self).
Proof.
  intros Hfp Hh Hfile Hfault Hexn.
  rewrite publish_eq, Hfp, Hh, Hfile, Hfault, Hexn. simpl.
  eexists. split; reflexivity.
Qed.

(** ** Staging a file *)

Section Staging.

Variable hexdigest : list Byte.byte → string.
Variable safe_filename : Path → option string.

(** Every way [set_filepath] can end. *)
Lemma set_filepath_effect (w : World) (self : nat) (p : Path) :
  match files w !! p with
  | None =>
      set_filepath hexdigest safe_filename self p w
      = Raise (FileNotFoundError "No such file or directory") w
  | Some bs =>
      ∃ w', set_filepath hexdigest safe_filename self p w = Return tt w'
            ∧ objs w' self =
                with_content_hash (Some (hexdigest bs))
                  (with__file_path (Bound (Some p))
                    (with_file_size (Some (Z.of_nat (length bs)))
                      (with_file_name (safe_filename p) (objs w self))))
            ∧ (∀ o, o ≠ self → objs w' o = objs w o)
            ∧ same_env w w'
  end.
Proof.
  unfold set_filepath, stat_size, checksum. py_unfold.
  destruct (files w !! p) as [bs|] eqn:Ef; simpl; [|reflexivity].
  eexists. split; [reflexivity|]. simpl. rewrite Ef. simpl.
  split_and!.
  - by rewrite !fn_lookup_insert.
  - intros o Ho. by rewrite !fn_lookup_insert_ne.
  - by unfold same_env.
Qed.

End Staging.

(** Every way [delete_publication] can end. *)
Lemma delete_publication_eq (w : World) (self : nat) :
  delete_publication self w =
    let w1 := autoflush w in
    if bool_decide (live_referrers w self = []) then
      let w2 := with_calls (calls w ++ [reclaim_call w self]) w1 in
      match faults w (length (calls w)) with
      | Some e => Raise e w2
      | None =>
          Return tt
            (assigned self (with_deleted (Some true))
               (with_published
                  (published w ∖ {[ (namespace (objs w self), content_hash (objs w self)) ]})
                  w2))
      end
    else Return tt (assigned self (with_deleted (Some true)) w1).
Proof.
  unfold delete_publication. unfold mbind at 1. unfold Py_bind.
  rewrite should_delete_publication_eq.
  destruct (autoflush_frame w) as (Hs & _ & _ & Hc & Hf & Hp & _).
  pose proof (autoflush_objs w self) as Hfl.
  pose proof (namespace_flushed _ _ _ Hfl) as Hns.
  apply flushed_keeps in Hfl as (Hh & _).
  simpl. case_bool_decide as Hl; [|reflexivity].
  unfold archive_delete_publication. py_unfold. simpl.
  rewrite Hc, Hf, Hp. unfold reclaim_call. rewrite Hns, Hh.
  destruct (faults w (length (calls w))) as [e|]; reflexivity.
Qed.

(** ** Two exports that share a blob *)

Lemma filter_nil_intro {A} (P : A → Prop) `{!∀ x, Decision (P x)} (l : list A) :
  (∀ x, x ∈ l → ¬ P x) → filter P l = [].
Proof.
  induction l as [|a l IH]; intros Hl; [done|].
  rewrite filter_cons. destruct (decide (P a)) as [Ha|Ha].
  - exfalso. apply (Hl a); [by left|done].
  - apply IH. intros x Hx. apply Hl. by right.
Qed.

(** What a [publish] that returns has done. *)
Lemma publish_success_effect (w w' : World) (self : nat) :
  publish self w = Return tt w' →
  ∃ h, content_hash (objs w self) = Some h
       ∧ objs w' self = with_export_status (Some STATUS_SUCCESSFUL) (objs w self)
       ∧ (∀ o, o ≠ self → objs w' o = objs w o)
       ∧ published w' = {[ (namespace (objs w self), Some h) ]} ∪ published w
       ∧ (∀ o, o ∈ session w' ↔ o = self ∨ o ∈ session w)
       ∧ faults w' = faults w ∧ utcnow w' = utcnow w.
Proof.
  rewrite publish_eq. intros H.
  destruct (_file_path (objs w self)) as [|[fp|]]; try done.
  destruct (content_hash (objs w self)) as [h|]; try done.
  destruct (files w !! fp) as [bs|]; try done. simpl in H.
  destruct (faults w (length (calls w))) as [e|]; [by destruct (derives_Exception e)|].
  injection H as <-. exists h. unfold status_assigned.
  match goal with |- context [assigned ?s ?g ?w0] =>
    destruct (assigned_frame s g w0) as (Ho & Hoth & _ & _ & Hp & Hf & Hu & _ & _ & _ & Hs)
  end.
  split_and!; done.
Qed.

Lemma deleted_flushed_not_true w e e' :
  flushed w e e' → deleted e ≠ Some true → deleted e' ≠ Some true.
Proof.
  intros Hfl Hd. apply flushed_keeps in Hfl as (_ & _ & _ & _ & _ & _ & Hb & Hn & _).
  destruct (deleted e) as [[]|] eqn:E; [done| |].
  - by rewrite (Hb false).
  - destruct Hn as [-> | ->]; done.
Qed.

Section SharedBlob.

Variable hexdigest : list Byte.byte → string.
Variable safe_filename : Path → option string.

(** C5.  Two exports of the same creator stage files with the same
    bytes and both publish.  Their content hashes are equal.  While the
    second is not deleted, [delete_publication] on the first returns
    without any call to the store, and the blob is still published.
    With no third live referrer, [delete_publication] on the second then
    sends the store the call for that blob; when the store answers it
    without error the blob is gone and the second export is marked
    deleted too. *)
Theorem shared_blob_reclaimed_last (w w1 w2 w3 w4 : World) (e1 e2 : nat)
    (p1 p2 : Path) (bs : list Byte.byte) :
  creator_id (objs w e1) = creator_id (objs w e2) →
  files w !! p1 = Some bs →
  files w !! p2 = Some bs →
  set_filepath hexdigest safe_filename e1 p1 w = Return tt w1 →
  set_filepath hexdigest safe_filename e2 p2 w1 = Return tt w2 →
  publish e1 w2 = Return tt w3 →
  publish e2 w3 = Return tt w4 →
  id (row w4 e1) ≠ id (row w4 e2) →
  deleted (objs w4 e2) ≠ Some true →
  (∀ o, o ∈ table w4 → o ≠ e1 → o ≠ e2 →
        ¬ (content_hash (row w4 o) = Some (hexdigest bs)
           ∧ deleted (row w4 o) ≠ Some true)) →
  let ns := namespace (objs w e1) in
  let h := Some (hexdigest bs) in
  content_hash (objs w2 e1) = h
  ∧ content_hash (objs w2 e2) = h
  ∧ ∃ w5,
      delete_publication e1 w4 = Return tt w5
      ∧ calls w5 = calls w4
      ∧ (ns, h) ∈ published w5
      ∧ deleted (objs w5 e1) = Some true
      ∧ calls (world_of (delete_publication e2 w5))
        = calls w5 ++ [DeletePublicationCall ns h]
      ∧ (faults w5 (length (calls w5)) = None →
         ∃ w6, delete_publication e2 w5 = Return tt w6
               ∧ ((ns, h) ∉ published w6)
               ∧ deleted (objs w6 e2) = Some true).
Proof.
  intros Hcreator Hf1 Hf2 Hs1 Hs2 Hp1 Hp2 Hids Hlive Hthird ns h.
  assert (e1 ≠ e2) as Hne.
  { intros Heq. subst e2. done. }
  (* staging *)
  pose proof (set_filepath_effect hexdigest safe_filename w e1 p1) as S1.
  rewrite Hf1 in S1. destruct S1 as (w1' & E1 & Ho1 & Hoth1 & Henv1).
  rewrite Hs1 in E1. injection E1 as <-.
  pose proof (set_filepath_effect hexdigest safe_filename w1 e2 p2) as S2.
  assert (files w1 = files w) as Hfiles1 by apply Henv1.
  rewrite Hfiles1, Hf2 in S2. destruct S2 as (w2' & E2 & Ho2 & Hoth2 & Henv2).
  rewrite Hs2 in E2. injection E2 as <-.
  assert (content_hash (objs w2 e1) = h) as Hh1.
  { rewrite Hoth2, Ho1 by done. reflexivity. }
  assert (content_hash (objs w2 e2) = h) as Hh2.
  { rewrite Ho2. reflexivity. }
  assert (namespace (objs w2 e1) = ns) as Hns1.
  { rewrite Hoth2, Ho1 by done. reflexivity. }
  assert (namespace (objs w2 e2) = ns) as Hns2.
  { rewrite Ho2. unfold ns, namespace. simpl. rewrite Hoth1 by done. by rewrite Hcreator. }
  split; [done|]. split; [done|].
  (* publication *)
  apply publish_success_effect in Hp1
    as (h1 & Hc1 & Hob3 & Hoth3 & Hpub3 & Hses3 & _).
  apply publish_success_effect in Hp2
    as (h2 & Hc2 & Hob4 & Hoth4 & Hpub4 & Hses4 & _).
  rewrite Hh1 in Hc1. rewrite Hoth3, Hh2 in Hc2 by done.
  unfold h in Hc1, Hc2. injection Hc1 as <-. injection Hc2 as <-.
  rewrite Hns1 in Hpub3. rewrite Hoth3, Hns2 in Hpub4 by done.
  assert (e1 ∈ session w4) as Hin1 by (apply Hses4; right; apply Hses3; by left).
  assert (e2 ∈ session w4) as Hin2 by (apply Hses4; by left).
  assert (content_hash (objs w4 e1) = h) as Hh41.
  { rewrite Hoth4, Hob3 by done. simpl. done. }
  assert (content_hash (objs w4 e2) = h) as Hh42.
  { rewrite Hob4. simpl. rewrite Hoth3 by done. done. }
  assert (namespace (objs w4 e2) = ns) as Hns42.
  { rewrite Hob4. unfold namespace. simpl. rewrite Hoth3 by done. apply Hns2. }
  (* the first deletion *)
  destruct (autoflush_frame w4) as (Hfs & _ & _ & Hfc & Hff & Hfp & _).
  assert (live_referrers w4 e1 ≠ []) as Hrefs.
  { intros Hnil.
    assert (live_referrer w4 e1 e2) as Hl2.
    { unfold live_referrer, row. split_and!.
      - pose proof (autoflush_objs w4 e2) as Hfl.
        apply flushed_keeps in Hfl as (-> & _). congruence.
      - eapply deleted_flushed_not_true; [apply autoflush_objs|done].
      - destruct (id (objs w4 e1)) as [i|] eqn:Ei.
        + pose proof (autoflush_objs w4 e1) as Hfl.
          apply flushed_keeps in Hfl as (_ & _ & _ & _ & _ & Hsame & _).
          unfold row in Hids. rewrite Hsame in Hids by congruence.
          rewrite Ei in Hids. congruence.
        + by apply autoflush_id. }
    unfold live_referrers in Hnil.
    apply (filter_nil_not_elem_of (live_referrer w4 e1) (table w4) e2 Hnil Hl2).
    unfold table. by rewrite Hfs. }
  set (w5 := assigned e1 (with_deleted (Some true)) (autoflush w4)).
  exists w5.
  destruct (assigned_frame e1 (with_deleted (Some true)) (autoflush w4))
    as (Ho5 & Hoth5 & Hc5 & _ & Hp5 & Hfa5 & _ & _ & _ & _ & Hs5).
  fold w5 in Ho5, Hoth5, Hc5, Hp5, Hfa5, Hs5.
  split.
  { rewrite delete_publication_eq. simpl. by rewrite bool_decide_eq_false_2. }
  split; [by rewrite Hc5|].
  split.
  { rewrite Hp5, Hfp, Hpub4. apply elem_of_union_l. by apply elem_of_singleton. }
  split; [by rewrite Ho5|].
  (* the second deletion *)
  assert (∀ o, o ∈ session w5 → o ∈ session w4) as Hs54.
  { intros o Ho. apply Hs5 in Ho as [-> | Ho]; [done|by rewrite Hfs in Ho]. }
  assert (autoflush w5 = w5) as Hflush5.
  { apply autoflush_persistent. intros o Ho. apply Hs54 in Ho.
    destruct (decide (o = e1)) as [-> | Hoe].
    - rewrite Ho5. simpl. by apply autoflush_id.
    - rewrite Hoth5 by done. by apply autoflush_id. }
  assert (objs w5 e2 = row w4 e2) as Ho52 by (by rewrite Hoth5).
  assert (content_hash (objs w5 e2) = h) as Hh52.
  { rewrite Ho52. unfold row. pose proof (autoflush_objs w4 e2) as Hfl.
    apply flushed_keeps in Hfl as (-> & _). done. }
  assert (namespace (objs w5 e2) = ns) as Hns52.
  { rewrite Ho52. unfold row. by rewrite (namespace_flushed _ _ _ (autoflush_objs w4 e2)). }
  assert (live_referrers w5 e2 = []) as Hnone.
  { apply filter_nil_intro. intros o Ho. unfold table in Ho. rewrite Hflush5 in Ho.
    apply Hs54 in Ho. unfold live_referrer, row. rewrite Hflush5.
    intros (Hch & Hdel & Hid).
    destruct (decide (o = e1)) as [-> | Hoe1].
    { rewrite Ho5 in Hdel. done. }
    destruct (decide (o = e2)) as [-> | Hoe2]; [done|].
    rewrite Hoth5 in Hch, Hdel by done.
    apply (Hthird o); [unfold table; by rewrite Hfs|done|done|].
    split; [|done]. unfold row. rewrite Hch. done. }
  rewrite delete_publication_eq. simpl.
  rewrite bool_decide_eq_true_2 by done.
  unfold reclaim_call. rewrite Hns52, Hh52, Hflush5.
  split.
  - destruct (faults w5 (length (calls w5))) as [e|]; simpl; [done|].
    match goal with |- context [assigned ?s ?g ?w0] =>
      destruct (assigned_frame s g w0) as (_ & _ & -> & _) end.
    done.
  - intros ->. eexists. split; [reflexivity|].
    match goal with |- context [assigned ?s ?g ?w0] =>
      destruct (assigned_frame s g w0) as (Ho6 & _ & _ & _ & Hp6 & _) end.
    rewrite Hp6, Ho6. simpl. split; [|done].
    rewrite not_elem_of_difference. right. by apply elem_of_singleton.
Qed.

End SharedBlob.

(** ** The statuses along a sequence of calls *)

Lemma status_step_refl w : status_step w w.
Proof. split; [done|]. intros r _. by left. Qed.

Lemma status_step_trans w1 w2 w3 :
  status_step w1 w2 → status_step w2 w3 → status_step w1 w3.
Proof.
  intros [Hn1 H1] [Hn2 H2]. split; [lia|]. intros r Hr.
  destruct (H1 r Hr) as [E1|(s1 & E1 & R1)];
    destruct (H2 r ltac:(lia)) as [E2|(s2 & E2 & R2)]; unfold status_kept_or_recognized.
  - left. congruence.
  - right. eauto.
  - right. exists s1. split; [congruence|done].
  - right. eauto.
Qed.

(** A world whose instances below [next_ref] have the same statuses. *)
Lemma status_step_same w w' :
  next_ref w' = next_ref w →
  (∀ r, export_status (objs w' r) = export_status (objs w r)) →
  status_step w w'.
Proof. intros Hn H. split; [lia|]. intros r _. left. apply H. Qed.

Lemma status_step_autoflush w : status_step w (autoflush w).
Proof.
  destruct (autoflush_frame w) as (_ & _ & _ & _ & _ & _ & Hn).
  split; [lia|]. intros r _.
  pose proof (autoflush_objs w r) as Hfl.
  apply flushed_keeps in Hfl as (_ & _ & _ & _ & _ & _ & _ & _ & Hs & Hn').
  unfold status_kept_or_recognized.
  destruct (export_status (objs w r)) as [s|] eqn:E.
  - left. by apply Hs.
  - destruct Hn' as [E'|E']; [done| by left |].
    right. exists STATUS_PENDING. split; [done|]. unfold recognized. auto.
Qed.

Lemma status_step_assigned_other self f w :
  (∀ e, export_status (f e) = export_status e) →
  status_step w (assigned self f w).
Proof.
  intros Hf. destruct (assigned_frame self f w) as (Ho & Hoth & _ & _ & _ & _ & _ & Hn & _).
  split; [lia|]. intros r _. left.
  destruct (decide (r = self)) as [-> | N]; [by rewrite Ho, Hf|by rewrite Hoth].
Qed.

Lemma status_step_status_assigned self s w :
  recognized s → status_step w (status_assigned self s w).
Proof.
  intros Hs. unfold status_assigned.
  destruct (assigned_frame self (with_export_status (Some s)) w)
    as (Ho & Hoth & _ & _ & _ & _ & _ & Hn & _).
  split; [lia|]. intros r _.
  destruct (decide (r = self)) as [-> | N]; [|left; by rewrite Hoth].
  right. exists s. by rewrite Ho.
Qed.

Lemma status_step_publish w self : status_step w (world_of (publish self w)).
Proof.
  rewrite publish_eq.
  destruct (_file_path (objs w self)) as [|[fp|]]; simpl; try apply status_step_refl.
  destruct (content_hash (objs w self)) as [h|]; simpl; try apply status_step_refl.
  destruct (files w !! fp) as [bs|]; simpl; try apply status_step_refl.
  destruct (faults w (length (calls w))) as [e|]; simpl.
  - destruct (derives_Exception e); simpl.
    + eapply status_step_trans; [|apply status_step_status_assigned, recognized_failed].
      by apply status_step_same.
    + by apply status_step_same.
  - eapply status_step_trans; [|apply status_step_status_assigned, recognized_successful].
    by apply status_step_same.
Qed.

Lemma status_step_set_status w self s : status_step w (world_of (set_status self s w)).
Proof.
  rewrite set_status_eq. simpl. case_bool_decide.
  - by apply status_step_status_assigned.
  - apply status_step_refl.
Qed.

Lemma status_step_delete_publication w self :
  status_step w (world_of (delete_publication self w)).
Proof.
  rewrite delete_publication_eq. simpl.
  eapply status_step_trans; [apply status_step_autoflush|].
  case_bool_decide.
  - destruct (faults w (length (calls w))) as [e|]; simpl.
    + by apply status_step_same.
    + eapply status_step_trans; [|by apply status_step_assigned_other].
      by apply status_step_same.
  - simpl. by apply status_step_assigned_other.
Qed.

Lemma world_of_query_rows q w : world_of (query_rows q w) = autoflush w.
Proof. reflexivity. Qed.

Lemma world_of_query_first q w : world_of (query_first q w) = autoflush w.
Proof. reflexivity. Qed.

Section CallSteps.

Variable hexdigest : list Byte.byte → string.
Variable safe_filename : Path → option string.
Variable to_dict_dates : export → gmap string pyval.

Lemma status_step_set_filepath w self p :
  status_step w (world_of (set_filepath hexdigest safe_filename self p w)).
Proof.
  pose proof (set_filepath_effect hexdigest safe_filename w self p) as H.
  destruct (files w !! p) as [bs|].
  - destruct H as (w' & -> & Ho & Hoth & Henv). simpl.
    apply status_step_same; [apply Henv|].
    intros r. destruct (decide (r = self)) as [-> | N]; [by rewrite Ho|by rewrite Hoth].
  - rewrite H. apply status_step_refl.
Qed.

(** [create] touches no instance that existed before the call. *)
Lemma create_frame w op role lbl fp exp coll mime :
  let w' := world_of (create hexdigest safe_filename op role lbl fp exp coll mime w) in
  next_ref w' = S (next_ref w) ∧ ∀ r, r ≠ next_ref w → objs w' r = objs w r.
Proof.
  set (J := λ w' : World,
         next_ref w' = S (next_ref w) ∧ ∀ r, r ≠ next_ref w → objs w' r = objs w r).
  cut (triple (λ w', w' = w)
         (create hexdigest safe_filename op role lbl fp exp coll mime)
         (λ _, J) (λ _, J)).
  { intros H. specialize (H w eq_refl). simpl.
    by destruct (create _ _ _ _ _ _ _ _ _ w). }
  assert (∀ f, triple J (setattr (next_ref w) f) (λ _, J) (λ _, J)) as Hset.
  { intros f. apply triple_setattr. intros w' [Hn Ho]. split; [done|].
    intros r Hr. simpl. rewrite fn_lookup_insert_ne by done. by apply Ho. }
  unfold create.
  apply triple_bind with (Q1 := λ e w', e = next_ref w ∧ J w').
  { intros w' Hw'. subst w'. simpl. split; [done|]. split; [done|].
    intros r Hr. simpl. by rewrite fn_lookup_insert_ne. }
  intros e.
  apply triple_bind with (Q1 := λ _ w', e = next_ref w ∧ J w').
  { intros w' [He HJ]. subst e. split; [done|]. by apply (Hset _ w'). }
  intros _.
  apply triple_bind with (Q1 := λ _ w', e = next_ref w ∧ J w').
  { intros w' [He HJ]. subst e. split; [done|]. by apply (Hset _ w'). }
  intros _.
  apply triple_bind with (Q1 := λ _ w', e = next_ref w ∧ J w').
  { intros w' [He HJ]. subst e. split; [done|]. by apply (Hset _ w'). }
  intros _.
  apply triple_bind with (Q1 := λ _ w', e = next_ref w ∧ J w').
  { intros w' [He [Hn Ho]]. subst e. destruct fp as [p|]; [|done].
    pose proof (set_filepath_effect hexdigest safe_filename w' (next_ref w) p) as H.
    destruct (files w' !! p) as [bs|].
    - destruct H as (w'' & -> & _ & Hoth & Henv). split; [done|]. split.
      + destruct Henv as (_ & _ & _ & _ & _ & _ & -> & _). done.
      + intros r Hr. rewrite Hoth by done. by apply Ho.
    - rewrite H. done. }
  intros _.
  apply triple_bind with (Q1 := λ _ w', e = next_ref w ∧ J w').
  { intros w' [He HJ]. subst e. destruct coll; [|done].
    split; [done|]. by apply (Hset _ w'). }
  intros _.
  apply triple_bind with (Q1 := λ _ w', e = next_ref w ∧ J w').
  { intros w' [He HJ]. subst e. split; [done|]. by apply (Hset _ w'). }
  intros _.
  apply triple_bind with (Q1 := λ _ w', e = next_ref w ∧ J w').
  { by intros w' H. }
  intros now.
  apply triple_bind with (Q1 := λ _ w', e = next_ref w ∧ J w').
  { intros w' [He HJ]. unfold datetime_add. case_bool_decide; done. }
  intros t.
  apply triple_bind with (Q1 := λ _ w', e = next_ref w ∧ J w').
  { intros w' [He HJ]. subst e. split; [done|]. by apply (Hset _ w'). }
  intros _.
  apply triple_bind with (Q1 := λ _ w', e = next_ref w ∧ J w').
  { intros w' [He HJ]. unfold session_add, modify. by case_bool_decide. }
  intros _. apply triple_ret. by intros w' [_ HJ].
Qed.

Lemma status_step_create w op role lbl fp exp coll mime :
  status_step w (world_of (create hexdigest safe_filename op role lbl fp exp coll mime w)).
Proof.
  destruct (create_frame w op role lbl fp exp coll mime) as [Hn Ho].
  split; [lia|]. intros r Hr. left. rewrite Ho; [done|lia].
Qed.

Lemma status_step_run_call (c : call) (w : World) :
  status_step w (run_call hexdigest safe_filename to_dict_dates c w).
Proof.
  destruct c; cbn [run_call].
  - apply status_step_create.
  - apply status_step_refl.
  - apply status_step_refl.
  - apply status_step_publish.
  - apply status_step_set_filepath.
  - apply status_step_set_status.
  - apply status_step_delete_publication.
  - rewrite should_delete_publication_eq. apply status_step_autoflush.
  - destruct deleted_arg; apply status_step_autoflush.
  - unfold by_id. rewrite world_of_query_first. apply status_step_autoflush.
  - apply status_step_autoflush.
Qed.

Lemma status_step_run_calls (cs : list call) (w : World) :
  status_step w (run_calls hexdigest safe_filename to_dict_dates cs w).
Proof.
  revert w. induction cs as [|c cs IH]; intros w; [apply status_step_refl|].
  simpl. eapply status_step_trans; [apply status_step_run_call|apply IH].
Qed.

(** C6, amended.  Along every sequence of calls, the status of an
    export is the one it had at the start or one of the three
    recognized values; [publish] changes it to successful or failed
    only; [set_status] sets any recognized status whatever the current
    one is. *)
Theorem export_status_stays_recognized (cs : list call) (w : World) (r : nat) :
  (r < next_ref w)%nat →
  let w' := run_calls hexdigest safe_filename to_dict_dates cs w in
  (export_status (objs w' r) = export_status (objs w r)
   ∨ export_status (objs w' r) = Some "pending"
   ∨ export_status (objs w' r) = Some "successful"
   ∨ export_status (objs w' r) = Some "failed")
  ∧ (∀ self,
       export_status (objs (world_of (publish self w)) r) = export_status (objs w r)
       ∨ export_status (objs (world_of (publish self w)) r) = Some "successful"
       ∨ export_status (objs (world_of (publish self w)) r) = Some "failed")
  ∧ (∀ s, s = "pending" ∨ s = "successful" ∨ s = "failed" →
       export_status (objs (world_of (set_status r s w)) r) = Some s).
Proof.
  intros Hr w'. split_and!.
  - destruct (status_step_run_calls cs w) as [_ H].
    destruct (H r Hr) as [E|(s & E & [-> | [-> | ->]])]; auto.
  - intros self. rewrite publish_eq.
    destruct (_file_path (objs w self)) as [|[fp|]]; simpl; auto.
    destruct (content_hash (objs w self)) as [h|]; simpl; auto.
    destruct (files w !! fp) as [bs|]; simpl; auto.
    unfold status_assigned.
    destruct (faults w (length (calls w))) as [e|]; simpl.
    + destruct (derives_Exception e); simpl; auto.
      match goal with |- context [assigned ?a ?g ?w0] =>
        destruct (assigned_frame a g w0) as (Ho & Hoth & _) end.
      destruct (decide (r = self)) as [-> | N]; [rewrite Ho|rewrite Hoth by done]; auto.
    + match goal with |- context [assigned ?a ?g ?w0] =>
        destruct (assigned_frame a g w0) as (Ho & Hoth & _) end.
      destruct (decide (r = self)) as [-> | N]; [rewrite Ho|rewrite Hoth by done]; auto.
  - intros s Hs. rewrite set_status_eq. simpl.
    rewrite bool_decide_eq_true_2 by exact Hs.
    unfold status_assigned.
    destruct (assigned_frame r (with_export_status (Some s)) w) as (-> & _). done.
Qed.

End CallSteps.

(** ** Examples *)

(** C6, the counterexample.  A successful export returns to pending, and
    also turns failed, by one call of [set_status]. *)
Lemma set_status_reverses_terminal :
  (0 < next_ref world_store_down)%nat
  ∧ export_status (objs world_store_down 0) = Some "successful"
  ∧ export_status
      (objs (run_calls sample_digest sample_safe_filename sample_dates
               [call_set_status 0 "pending"] world_store_down) 0) = Some "pending"
  ∧ export_status
      (objs (run_calls sample_digest sample_safe_filename sample_dates
               [call_set_status 0 "failed"] world_store_down) 0) = Some "failed".
Proof. split_and!; [repeat constructor|reflexivity|reflexivity|reflexivity]. Qed.

Lemma export_status_stays_recognized_witness :
  (0 < next_ref world_store_down)%nat
  ∧ (export_status
       (objs (run_calls sample_digest sample_safe_filename sample_dates
                [call_publish 0; call_set_status 0 "pending"; call_delete_publication 0]
                world_store_down) 0)
     = export_status (objs world_store_down 0)
     ∨ export_status
         (objs (run_calls sample_digest sample_safe_filename sample_dates
                  [call_publish 0; call_set_status 0 "pending"; call_delete_publication 0]
                  world_store_down) 0) = Some "pending"
     ∨ export_status
         (objs (run_calls sample_digest sample_safe_filename sample_dates
                  [call_publish 0; call_set_status 0 "pending"; call_delete_publication 0]
                  world_store_down) 0) = Some "successful"
     ∨ export_status
         (objs (run_calls sample_digest sample_safe_filename sample_dates
                  [call_publish 0; call_set_status 0 "pending"; call_delete_publication 0]
                  world_store_down) 0) = Some "failed").
Proof.
  assert (0 < next_ref world_store_down)%nat as H by (repeat constructor).
  split; [exact H|].
  exact (proj1 (export_status_stays_recognized sample_digest sample_safe_filename
                  sample_dates
                  [call_publish 0; call_set_status 0 "pending"; call_delete_publication 0]
                  world_store_down 0 H)).
Defined.

Lemma publish_store_failure_witness :
  _file_path (objs world_staged_store_down 0) = Bound (Some ("/tmp", "export.zip"))
  ∧ content_hash (objs world_staged_store_down 0) = Some "abc"
  ∧ files world_staged_store_down !! ("/tmp", "export.zip") = Some [x01; x02]
  ∧ faults world_staged_store_down (length (calls world_staged_store_down))
    = Some StoreError
  ∧ derives_Exception StoreError = true
  ∧ ∃ w', publish 0 world_staged_store_down = Raise StoreError w'
          ∧ export_status (objs w' 0) = Some "failed"
          ∧ calls w' = calls world_staged_store_down
                       ++ [PublishCall (namespace (objs world_staged_store_down 0))
                             (parent ("/tmp", "export.zip"), "abc")
                             (mime_type (objs world_staged_store_down 0))].
Proof.
  split_and!; [reflexivity|reflexivity|reflexivity|reflexivity|reflexivity|].
  apply (publish_store_failure world_staged_store_down 0 ("/tmp", "export.zip") "abc"
           [x01; x02] StoreError); reflexivity.
Defined.

Lemma shared_blob_reclaimed_last_witness :
  creator_id (objs world_two_exports 0) = creator_id (objs world_two_exports 1)
  ∧ files world_two_exports !! ("/tmp", "a.zip") = Some [x01; x02]
  ∧ files world_two_exports !! ("/tmp", "b.zip") = Some [x01; x02]
  ∧ content_hash (objs world_both_staged 0) = content_hash (objs world_both_staged 1)
  ∧ ∃ w5,
      delete_publication 0 world_both_published = Return tt w5
      ∧ calls w5 = calls world_both_published
      ∧ calls (world_of (delete_publication 1 w5))
        = calls w5 ++ [DeletePublicationCall (Some "role:7") (Some "sha1:2")].
Proof.
  assert (table world_both_published = [0%nat; 1%nat]) as Htable by reflexivity.
  assert (∀ o, o ∈ table world_both_published → o ≠ 0%nat → o ≠ 1%nat →
            ¬ (content_hash (row world_both_published o) = Some (sample_digest [x01; x02])
               ∧ deleted (row world_both_published o) ≠ Some true)) as Hthird.
  { intros o Ho H0 H1. exfalso. rewrite Htable in Ho.
    apply elem_of_cons in Ho as [Ho|Ho]; [done|].
    apply elem_of_cons in Ho as [Ho|Ho]; [done|].
    by apply elem_of_nil in Ho. }
  pose proof (shared_blob_reclaimed_last sample_digest sample_safe_filename
                world_two_exports world_first_staged world_both_staged
                world_first_published world_both_published 0 1
                ("/tmp", "a.zip") ("/tmp", "b.zip") [x01; x02]
                eq_refl eq_refl eq_refl eq_refl eq_refl eq_refl eq_refl
                ltac:(discriminate) ltac:(discriminate) Hthird) as H.
  simpl in H. destruct H as (H1 & H2 & w5 & Hd & Hc & _ & _ & Hcall & _).
  split_and!; [reflexivity|reflexivity|reflexivity|congruence|].
  exists w5. split_and!; [exact Hd|exact Hc|exact Hcall].
Defined.

(** An export created without a file and published at once: the error
    is the [AttributeError], and the status is the one [create] left. *)
Lemma publish_never_staged_example :
  match (create sample_digest sample_safe_filename (Some "search_export") (Some 7)
           (Some "results") None None None None ≫= publish) world_two_exports with
  | Raise e w' =>
      e = AttributeError "'Export' object has no attribute '_file_path'"
      ∧ export_status (objs w' 2) = None
      ∧ calls w' = []
  | Return _ _ => False
  end.
Proof. vm_compute. done. Qed.

(** The same call on an instance whose [_file_path] holds [None] ends in
    the error of the guard. *)
Lemma publish_guard_example :
  publish 0 (with_objs (λ _, with__file_path (Bound None) row_published) world_store_down)
  = Raise (RuntimeError "file path not present for export: %r")
      (with_objs (λ _, with__file_path (Bound None) row_published) world_store_down).
Proof. reflexivity. Qed.

(** A successful export serializes its status as the raw string, not as
    the label of [EXPORT_STATUS]. *)
Lemma to_dict_successful_example :
  to_dict sample_dates row_published !! "export_status" = Some (PyStr "successful")
  ∧ EXPORT_STATUS !! "successful" = Some (PyLazy "successful")
  ∧ to_dict sample_dates row_published !! "_file_path" = None.
Proof.
  split_and!; [apply to_dict_lookup_export_status|reflexivity|].
  by apply to_dict_no_file_path.
Qed.

(** A zero duration gives the default expiry. *)
Lemma create_zero_duration_example :
  match create sample_digest sample_safe_filename (Some "search_export") (Some 7)
          (Some "results") None (Some 0) None None world_two_exports with
  | Return e w' => e = 2%nat ∧ expires_at (objs w' e) = Some (100 + 2592000000000)
  | Raise _ _ => False
  end.
Proof. vm_compute. done. Qed.

(** ** Lookups with every value of their arguments *)

Lemma selects_nil (o : option order_clause) (r : export) : selects (mkQuery [] o) r.
Proof. unfold selects. simpl. constructor. Qed.

Lemma selects_snoc (cs : list (export → option bool)) (c : export → option bool)
    (o : option order_clause) (r : export) :
  selects (mkQuery (cs ++ [c]) o) r ↔ selects (mkQuery cs o) r ∧ c r = Some true.
Proof.
  unfold selects. simpl. rewrite Forall_app, Forall_cons, Forall_nil. tauto.
Qed.

Lemma selects_query_filter (c : export → option bool) (q : Query) (r : export) :
  selects (query_filter c q) r ↔ selects q r ∧ c r = Some true.
Proof. destruct q as [cs o]. apply selects_snoc. Qed.

Lemma col_eq_true {A} `{EqDecision A} (col : export → option A) (v : option A) r :
  col_eq col v r = Some true ↔ col r = v.
Proof.
  unfold col_eq. destruct v as [x|], (col r) as [c|]; simpl;
    repeat case_bool_decide; split; intros; simplify_eq; done.
Qed.

Lemma col_le_true (col : export → option Z) (v : Z) r :
  col_le col v r = Some true ↔ ∃ t, col r = Some t ∧ t ≤ v.
Proof.
  unfold col_le. destruct (col r) as [c|]; simpl.
  - case_bool_decide; split.
    + intros _. eauto.
    + done.
    + done.
    + intros (t & ? & ?). simplify_eq. done.
  - split; [done|]. intros (t & ? & ?). done.
Qed.

Lemma col_isnot_true {A} `{EqDecision A} (col : export → option A) (v : option A) r :
  col_isnot col v r = Some true ↔ col r ≠ v.
Proof.
  unfold col_isnot. case_bool_decide; split; intros; simplify_eq; done.
Qed.

Lemma get_expired_selects (now : Z) (d : option bool) (r : export) :
  selects
    (match d with
     | Some b =>
         query_filter (col_eq deleted (Some b))
           (query_filter (col_le expires_at now)
              (query_filter (col_isnot expires_at None) Export_all))
     | None =>
         query_filter (col_le expires_at now)
           (query_filter (col_isnot expires_at None) Export_all)
     end) r
  ↔ expired_at now r ∧ deleted_matches d r.
Proof.
  unfold expired_at, deleted_matches.
  destruct d as [b|]; rewrite !selects_query_filter, ?col_eq_true, col_le_true,
    col_isnot_true.
  - split.
    + intros (((_ & _) & H) & Hd). done.
    + intros ((t & Ht & Hle) & Hd). split_and!; eauto using selects_nil. congruence.
  - split.
    + intros ((_ & _) & H). done.
    + intros ((t & Ht & Hle) & _). split_and!; eauto using selects_nil. congruence.
Qed.

Lemma get_expired_rows_eq (w : World) (d : option bool) :
  (get_expired d ≫= query_rows) w
  = Return (filter (λ o, expired_at (utcnow w) (row w o) ∧ deleted_matches d (row w o))
              (table w))
      (autoflush w).
Proof.
  assert ((get_expired d ≫= query_rows) w
          = query_rows
              (match d with
               | Some b =>
                   query_filter (col_eq deleted (Some b))
                     (query_filter (col_le expires_at (utcnow w))
                        (query_filter (col_isnot expires_at None) Export_all))
               | None =>
                   query_filter (col_le expires_at (utcnow w))
                     (query_filter (col_isnot expires_at None) Export_all)
               end) w) as -> by (by destruct d).
  assert (∀ q, ordering q = None →
            query_rows q w
            = Return (filter (λ o, selects q (row w o)) (table w)) (autoflush w)) as Hq.
  { intros [cs o] Ho. simpl in Ho. subst o. reflexivity. }
  rewrite Hq by (by destruct d). f_equal.
  apply list_filter_iff. intros o. apply get_expired_selects.
Qed.

(** X3.  Run at once, [get_expired(deleted)] returns, in the order of
    the table, the rows whose [expires_at] is set and not after the
    clock and, when [deleted] is not [None], whose [deleted] column
    equals it: [None] asks for the expired rows whatever their flag. *)
Theorem get_expired_rows (w : World) (d : option bool) :
  (get_expired d ≫= query_rows) w
  = Return (filter (λ o, expired_at (utcnow w) (row w o) ∧ deleted_matches d (row w o))
              (table w))
      (autoflush w).
Proof. apply get_expired_rows_eq. Qed.

Lemma by_id_selects (i role : option Z) (d : bool) (r : export) :
  selects
    (let q := query_filter (col_eq id i) Export_all in
     let q := match role with
              | Some x => query_filter (col_eq creator_id (Some x)) q
              | None => q
              end in
     if negb d then query_filter (col_eq deleted (Some false)) q else q) r
  ↔ by_id_matches i role d r.
Proof.
  unfold by_id_matches. simpl.
  destruct d, role as [x|]; simpl; rewrite !selects_query_filter, !col_eq_true.
  all: pose proof (selects_nil None r) as Hn; intuition congruence.
Qed.

Lemma by_id_eq (w : World) (i role : option Z) (d : bool) :
  by_id i role d w
  = Return (head (filter (λ o, by_id_matches i role d (row w o)) (table w)))
      (autoflush w).
Proof.
  unfold by_id, query_first. unfold mbind, Py_bind, mret, Py_ret.
  set (q := if negb d then _ else _).
  assert (ordering q = None) as Ho.
  { unfold q. by destruct d, role. }
  assert (query_rows q w
          = Return (filter (λ o, selects q (row w o)) (table w)) (autoflush w)) as ->.
  { destruct q as [cs o]. simpl in Ho. subst o. reflexivity. }
  do 2 f_equal. apply list_filter_iff. intros o. apply by_id_selects.
Qed.

(** X1.  [by_id] returns a row of the table that has the given id, is
    owned by the role when a role is given, and is not deleted unless
    deleted rows are asked for; it returns [None] exactly when the table
    has no such row.  It always returns, after the flush of the session. *)
Theorem by_id_finds_match (w : World) (i role : option Z) (d : bool) :
  ∃ r, by_id i role d w = Return r (autoflush w)
       ∧ match r with
         | Some o => o ∈ table w ∧ by_id_matches i role d (row w o)
         | None => ∀ o, o ∈ table w → ¬ by_id_matches i role d (row w o)
         end.
Proof.
  rewrite by_id_eq. eexists. split; [reflexivity|].
  destruct (filter _ (table w)) as [|o l] eqn:E; simpl.
  - intros o Ho Hm.
    by apply (filter_nil_not_elem_of (λ o, by_id_matches i role d (row w o))
                (table w) o E Hm).
  - assert (o ∈ filter (λ o, by_id_matches i role d (row w o)) (table w)) as Hin.
    { rewrite E. by left. }
    apply list_elem_of_filter in Hin. tauto.
Qed.

(** X2.  [by_id] with no id finds nothing: every row of the table has a
    primary key. *)
Theorem by_id_none (w : World) (role : option Z) (d : bool) :
  by_id None role d w = Return None (autoflush w).
Proof.
  rewrite by_id_eq. f_equal. apply head_None. apply filter_nil_intro.
  intros o Ho (Hid & _). revert Hid. apply autoflush_id.
  unfold table in Ho. destruct (autoflush_frame w) as (Hs & _). by rewrite Hs in Ho.
Qed.

Lemma by_role_id_all_selects (role : option Z) (r : export) :
  selects (mkQuery [col_eq creator_id role] (Some created_at_desc)) r
  ↔ creator_id r = role.
Proof.
  unfold selects. simpl. rewrite Forall_cons, Forall_nil, col_eq_true. tauto.
Qed.

(** X4.  Asked for deleted rows too, [by_role_id] returns every row of
    the role, whatever its [deleted] column holds, each as often as the
    table holds it, every row before the rows created earlier. *)
Theorem by_role_id_with_deleted (w : World) (role_id : option Z) :
  ∃ rows,
    (by_role_id role_id true ≫= query_rows) w = Return rows (autoflush w)
    ∧ rows ≡ₚ filter (λ o, creator_id (row w o) = role_id) (table w)
    ∧ StronglySorted
        (λ a b, newer_or_same (created_at (row w a)) (created_at (row w b))) rows.
Proof.
  eexists. split; [reflexivity|]. simpl. split.
  - rewrite merge_sort_Permutation.
    erewrite list_filter_iff; [reflexivity|].
    intros o. apply by_role_id_all_selects.
  - apply (StronglySorted_merge_sort (created_desc (autoflush w))).
Qed.

(** ** The namespace of an export *)

Lemma namespace_eq (r : export) :
  namespace r = Some (match creator_id r with
                      | Some c => "role:" +:+ pretty c
                      | None => "role"
                      end).
Proof. unfold namespace, make_key, stringify. by destruct (creator_id r). Qed.

Lemma namespace_inj (r1 r2 : export) :
  namespace r1 = namespace r2 → creator_id r1 = creator_id r2.
Proof.
  rewrite !namespace_eq.
  destruct (creator_id r1) as [c1|], (creator_id r2) as [c2|]; intros H; try done.
  injection H as H. f_equal. by apply (inj pretty).
Qed.

(** X5.  The namespace is [role:<creator_id>], or [role] for an export
    without creator, and two exports have the same namespace exactly
    when they have the same creator. *)
Theorem namespace_per_creator (r1 r2 : export) :
  namespace r1 = Some (match creator_id r1 with
                       | Some c => "role:" +:+ pretty c
                       | None => "role"
                       end)
  ∧ (namespace r1 = namespace r2 ↔ creator_id r1 = creator_id r2).
Proof.
  split; [apply namespace_eq|]. split; [apply namespace_inj|].
  intros H. by rewrite !namespace_eq, H.
Qed.

(** ** Staging, publishing and publishing again *)

Section StagingMore.

Variable hexdigest : list Byte.byte → string.
Variable safe_filename : Path → option string.

(** X6.  When a regular file lies at the path, [set_filepath] returns,
    with the name, the size in bytes, the path and the digest of the
    bytes set on the export; the status, the id and the flags of the
    export, every other export, the session, the disk and the calls of
    the store stay as they were. *)
Theorem set_filepath_stages (w : World) (self : nat) (p : Path) (bs : list Byte.byte) :
  files w !! p = Some bs →
  ∃ w', set_filepath hexdigest safe_filename self p w = Return tt w'
        ∧ file_name (objs w' self) = safe_filename p
        ∧ file_size (objs w' self) = Some (Z.of_nat (length bs))
        ∧ _file_path (objs w' self) = Bound (Some p)
        ∧ content_hash (objs w' self) = Some (hexdigest bs)
        ∧ export_status (objs w' self) = export_status (objs w self)
        ∧ id (objs w' self) = id (objs w self)
        ∧ deleted (objs w' self) = deleted (objs w self)
        ∧ creator_id (objs w' self) = creator_id (objs w self)
        ∧ expires_at (objs w' self) = expires_at (objs w self)
        ∧ (∀ o, o ≠ self → objs w' o = objs w o)
        ∧ session w' = session w
        ∧ files w' = files w
        ∧ calls w' = calls w.
Proof.
  intros Hbs.
  pose proof (set_filepath_effect hexdigest safe_filename w self p) as H.
  rewrite Hbs in H.
  destruct H as (w' & E & Ho & Hoth & Hs & Hf & Hc & _).
  exists w'. rewrite Ho. split_and!; done.
Qed.

End StagingMore.

Lemma set_filepath_stages_witness :
  files world_staged !! ("/tmp", "export.zip") = Some [x01; x02]
  ∧ ∃ w', set_filepath sample_digest sample_safe_filename 0 ("/tmp", "export.zip")
            world_staged = Return tt w'
          ∧ file_size (objs w' 0%nat) = Some 2
          ∧ content_hash (objs w' 0%nat) = Some (sample_digest [x01; x02])
          ∧ session w' = session world_staged.
Proof.
  assert (files world_staged !! ("/tmp", "export.zip") = Some [x01; x02]) as Hf
    by (vm_compute; reflexivity).
  split; [exact Hf|].
  destruct (set_filepath_stages sample_digest sample_safe_filename world_staged 0
              ("/tmp", "export.zip") [x01; x02] Hf)
    as (w' & E & _ & Hsz & _ & Hh & _ & _ & _ & _ & _ & _ & Hs & _).
  exists w'. split_and!; done.
Defined.


(** X7.  An export with a staged file on the disk, and a store that
    answers without error: [publish] returns, the file now lies beside
    its old place under the content hash as name, the store has received
    one call with the namespace of the creator, that path and the mime
    type, the blob is published under namespace and hash, and the export
    is successful and in the session. *)
Theorem publish_moves_and_publishes (w : World) (self : nat) (fp : Path) (h : string)
    (bs : list Byte.byte) :
  _file_path (objs w self) = Bound (Some fp) →
  content_hash (objs w self) = Some h →
  files w !! fp = Some bs →
  faults w (length (calls w)) = None →
  ∃ w', publish self w = Return tt w'
        ∧ export_status (objs w' self) = Some "successful"
        ∧ files w' !! (parent fp, h) = Some bs
        ∧ (name fp ≠ h → files w' !! fp = None)
        ∧ calls w' = calls w ++ [PublishCall (namespace (objs w self)) (parent fp, h)
                                   (mime_type (objs w self))]
        ∧ (namespace (objs w self), Some h) ∈ published w'
        ∧ self ∈ session w'
        ∧ (∀ o, o ≠ self → objs w' o = objs w o).
Proof.
  intros Hfp Hh Hfile Hfault.
  rewrite publish_eq, Hfp, Hh, Hfile, Hfault. simpl.
  eexists. split; [reflexivity|]. unfold status_assigned.
  match goal with |- context [assigned ?s ?g ?w0] =>
    destruct (assigned_frame s g w0) as (Ho & Hoth & Hc & Hf & Hp & _ & _ & _ & _ & Hin & _)
  end.
  rewrite Ho, Hc, Hf, Hp. simpl. split_and!; try done.
  - apply lookup_insert_eq.
  - intros Hn. rewrite lookup_insert_ne.
    + apply lookup_delete_eq.
    + intros E. apply Hn. destruct fp as [dir nm]. by injection E.
  - apply elem_of_union_l. by apply elem_of_singleton.
Qed.

(** X8.  Once [publish] has reached the store, whether the store
    accepted the file or answered with an error, the staged file is no
    longer at its path: unless that path already had the content hash as
    name, a second [publish] raises [FileNotFoundError], sends the store
    nothing and leaves the status as the first call set it. *)
Theorem publish_again_file_gone (w : World) (self : nat) (fp : Path) (h : string)
    (bs : list Byte.byte) :
  _file_path (objs w self) = Bound (Some fp) →
  content_hash (objs w self) = Some h →
  files w !! fp = Some bs →
  name fp ≠ h →
  let w' := world_of (publish self w) in
  publish self w' = Raise (FileNotFoundError "No such file or directory") w'.
Proof.
  intros Hfp Hh Hfile Hn w'.
  assert (_file_path (objs w' self) = Bound (Some fp)
          ∧ content_hash (objs w' self) = Some h
          ∧ files w' !! fp = None) as (Hfp' & Hh' & Hfile').
  { assert (<[(parent fp, h):=bs]> (delete fp (files w)) !! fp = None) as Hgone.
    { rewrite lookup_insert_ne.
      - apply lookup_delete_eq.
      - intros E. apply Hn. destruct fp as [dir nm]. by injection E. }
    unfold w'. rewrite publish_eq, Hfp, Hh, Hfile. simpl. unfold status_assigned.
    destruct (faults w (length (calls w))) as [e|]; simpl.
    - destruct (derives_Exception e); simpl; [|done].
      match goal with |- context [assigned ?s ?g ?w0] =>
        destruct (assigned_frame s g w0) as (Ho & _ & _ & Hf & _) end.
      rewrite Ho, Hf. done.
    - match goal with |- context [assigned ?s ?g ?w0] =>
        destruct (assigned_frame s g w0) as (Ho & _ & _ & Hf & _) end.
      rewrite Ho, Hf. done. }
  rewrite publish_eq, Hfp', Hh', Hfile'. reflexivity.
Qed.

Lemma publish_moves_and_publishes_witness :
  faults world_staged (length (calls world_staged)) = None
  ∧ ∃ w', publish 0 world_staged = Return tt w'
          ∧ export_status (objs w' 0) = Some "successful"
          ∧ files w' !! ("/tmp", "abc") = Some [x01; x02]
          ∧ files w' !! ("/tmp", "export.zip") = None.
Proof.
  split; [reflexivity|].
  destruct (publish_moves_and_publishes world_staged 0 ("/tmp", "export.zip") "abc"
              [x01; x02] eq_refl eq_refl eq_refl eq_refl)
    as (w' & E & Hs & Hf & Hg & _).
  exists w'. split_and!; [exact E|exact Hs|exact Hf|].
  apply Hg. discriminate.
Defined.

Lemma publish_again_file_gone_witness :
  name ("/tmp", "export.zip") ≠ "abc"
  ∧ publish 0 (world_of (publish 0 world_staged))
    = Raise (FileNotFoundError "No such file or directory")
        (world_of (publish 0 world_staged))
  ∧ publish 0 (world_of (publish 0 world_staged_store_down))
    = Raise (FileNotFoundError "No such file or directory")
        (world_of (publish 0 world_staged_store_down)).
Proof.
  assert (name ("/tmp", "export.zip") ≠ "abc") as Hn by discriminate.
  split; [exact Hn|]. split.
  - exact (publish_again_file_gone world_staged 0 ("/tmp", "export.zip") "abc"
             [x01; x02] eq_refl eq_refl eq_refl Hn).
  - exact (publish_again_file_gone world_staged_store_down 0 ("/tmp", "export.zip") "abc"
             [x01; x02] eq_refl eq_refl eq_refl Hn).
Defined.

(** ** Reclaiming across creators, and reclaiming again *)

Lemma live_referrers_cons (w : World) (e1 e2 : nat) :
  e2 ∈ session w →
  content_hash (objs w e2) = content_hash (objs w e1) →
  deleted (objs w e2) ≠ Some true →
  id (row w e1) ≠ id (row w e2) →
  live_referrers w e1 ≠ [].
Proof.
  intros Hin Hh Hd Hids Hnil.
  destruct (autoflush_frame w) as (Hfs & _).
  assert (live_referrer w e1 e2) as Hl.
  { unfold live_referrer, row. split_and!.
    - pose proof (autoflush_objs w e2) as Hfl.
      apply flushed_keeps in Hfl as (-> & _). done.
    - eapply deleted_flushed_not_true; [apply autoflush_objs|done].
    - destruct (id (objs w e1)) as [i|] eqn:Ei.
      + pose proof (autoflush_objs w e1) as Hfl.
        apply flushed_keeps in Hfl as (_ & _ & _ & _ & _ & Hsame & _).
        unfold row in Hids. rewrite Hsame in Hids by congruence.
        rewrite Ei in Hids. congruence.
      + by apply autoflush_id. }
  unfold live_referrers in Hnil.
  apply (filter_nil_not_elem_of (live_referrer w e1) (table w) e2 Hnil Hl).
  unfold table. by rewrite Hfs.
Qed.

(** X9.  The live-referrer query compares content hashes of all
    creators, while the store is addressed per creator.  Two exports of
    different creators hold the same content hash and the first one's
    blob is published: [delete_publication] on the first returns without
    a call to the store, and whatever [delete_publication] on the second
    then does, the only call it can add names the second's namespace:
    the first one's blob stays published. *)
Theorem delete_publication_other_creator_blob_stays (w : World) (e1 e2 : nat)
    (h : string) :
  e2 ∈ session w →
  content_hash (objs w e1) = Some h →
  content_hash (objs w e2) = Some h →
  creator_id (objs w e1) ≠ creator_id (objs w e2) →
  deleted (objs w e2) ≠ Some true →
  id (row w e1) ≠ id (row w e2) →
  (namespace (objs w e1), Some h) ∈ published w →
  ∃ w1,
    delete_publication e1 w = Return tt w1
    ∧ calls w1 = calls w
    ∧ deleted (objs w1 e1) = Some true
    ∧ (namespace (objs w e1), Some h) ∈ published (world_of (delete_publication e2 w1))
    ∧ ∀ c, c ∈ calls (world_of (delete_publication e2 w1)) →
           c ∈ calls w ∨ c = DeletePublicationCall (namespace (objs w e2)) (Some h).
Proof.
  intros Hin Hh1 Hh2 Hcr Hd Hids Hpub.
  assert (e1 ≠ e2) as Hne by (intros E; subst e2; done).
  assert (namespace (objs w e1) ≠ namespace (objs w e2)) as Hns.
  { intros E. by apply namespace_inj in E. }
  pose proof (live_referrers_cons w e1 e2 Hin ltac:(congruence) Hd Hids) as Hrefs.
  destruct (autoflush_frame w) as (Hfs & _ & _ & Hfc & Hff & Hfp & _).
  set (w1 := assigned e1 (with_deleted (Some true)) (autoflush w)).
  destruct (assigned_frame e1 (with_deleted (Some true)) (autoflush w))
    as (Ho1 & Hoth1 & Hc1 & _ & Hp1 & Hfa1 & _).
  fold w1 in Ho1, Hoth1, Hc1, Hp1, Hfa1.
  exists w1. split.
  { rewrite delete_publication_eq. simpl. by rewrite bool_decide_eq_false_2. }
  split; [by rewrite Hc1|]. split; [by rewrite Ho1|].
  assert (objs w1 e2 = row w e2) as Ho2 by (by rewrite Hoth1).
  assert (content_hash (objs w1 e2) = Some h) as Hh2'.
  { rewrite Ho2. unfold row. pose proof (autoflush_objs w e2) as Hfl.
    apply flushed_keeps in Hfl as (-> & _). done. }
  assert (namespace (objs w1 e2) = namespace (objs w e2)) as Hns2.
  { rewrite Ho2. unfold row. apply (namespace_flushed _ _ _ (autoflush_objs w e2)). }
  assert (published w1 = published w) as Hpw by (by rewrite Hp1).
  assert (calls w1 = calls w) as Hcw by (by rewrite Hc1).
  rewrite delete_publication_eq. simpl.
  destruct (autoflush_frame w1) as (_ & _ & _ & Hfc1 & _ & Hfp1 & _).
  unfold reclaim_call. rewrite Hns2, Hh2'.
  case_bool_decide as Hl.
  - destruct (faults w1 (length (calls w1))) as [e|]; simpl.
    + rewrite Hfp1, Hpw, Hcw. split; [done|].
      intros c Hc. apply elem_of_app in Hc as [Hc|Hc]; [by left|].
      right. by apply list_elem_of_singleton in Hc.
    + match goal with |- context [assigned ?s ?g ?w0] =>
        destruct (assigned_frame s g w0) as (_ & _ & Hc2 & _ & Hp2 & _) end.
      rewrite Hp2, Hc2. simpl. rewrite Hpw, Hcw. split.
      * apply elem_of_difference. split; [done|].
        rewrite elem_of_singleton. congruence.
      * intros c Hc. apply elem_of_app in Hc as [Hc|Hc]; [by left|].
        right. by apply list_elem_of_singleton in Hc.
  - simpl.
    match goal with |- context [assigned ?s ?g ?w0] =>
      destruct (assigned_frame s g w0) as (_ & _ & Hc2 & _ & Hp2 & _) end.
    rewrite Hp2, Hc2, Hfp1, Hfc1, Hpw, Hcw. split; [done|]. intros c Hc. by left.
Qed.

Lemma delete_publication_other_creator_blob_stays_witness :
  1%nat ∈ session world_two_creators
  ∧ creator_id (objs world_two_creators 0) ≠ creator_id (objs world_two_creators 1)
  ∧ ∃ w1,
      delete_publication 0 world_two_creators = Return tt w1
      ∧ calls w1 = calls world_two_creators
      ∧ (Some "role:7", Some "abc") ∈ published (world_of (delete_publication 1 w1)).
Proof.
  assert (1%nat ∈ session world_two_creators) as Hin.
  { right. left. }
  assert (creator_id (objs world_two_creators 0) ≠ creator_id (objs world_two_creators 1))
    as Hcr by discriminate.
  assert ((namespace (objs world_two_creators 0), Some "abc")
          ∈ published world_two_creators) as Hpub.
  { apply elem_of_union_l. by apply elem_of_singleton. }
  destruct (delete_publication_other_creator_blob_stays world_two_creators 0 1 "abc"
              Hin eq_refl eq_refl Hcr ltac:(discriminate) ltac:(discriminate) Hpub)
    as (w1 & E & Hc & _ & Hp & _).
  split; [exact Hin|]. split; [exact Hcr|].
  exists w1. split_and!; [exact E|exact Hc|exact Hp].
Defined.

(** The rows of the table are persistent after a flush. *)
Lemma row_persistent (w : World) (o : nat) : o ∈ session w → id (row w o) ≠ None.
Proof. apply autoflush_id. Qed.

(** X10.  [delete_publication] does not look at the [deleted] flag of
    the export itself.  With no other live referrer and a store that
    answers the first call without error, a second [delete_publication]
    on the same export sends the store the same call again. *)
Theorem delete_publication_twice_calls_twice (w : World) (self : nat) :
  live_referrers w self = [] →
  faults w (length (calls w)) = None →
  ∃ w1,
    delete_publication self w = Return tt w1
    ∧ deleted (objs w1 self) = Some true
    ∧ calls w1 = calls w ++ [reclaim_call w self]
    ∧ calls (world_of (delete_publication self w1))
      = calls w ++ [reclaim_call w self; reclaim_call w self].
Proof.
  intros Hnil Hfault.
  destruct (autoflush_frame w) as (Hfs & _ & _ & Hfc & Hff & Hfp & _).
  rewrite delete_publication_eq. simpl.
  rewrite bool_decide_eq_true_2 by done. rewrite Hfault.
  set (w0 := with_published _ _).
  set (w1 := assigned self (with_deleted (Some true)) w0).
  destruct (assigned_frame self (with_deleted (Some true)) w0)
    as (Ho1 & Hoth1 & Hc1 & _ & _ & _ & _ & _ & _ & Hin1 & Hs1).
  fold w1 in Ho1, Hoth1, Hc1, Hin1, Hs1.
  exists w1. split; [done|]. split; [by rewrite Ho1|].
  assert (calls w1 = calls w ++ [reclaim_call w self]) as Hcalls by (by rewrite Hc1).
  split; [done|].
  assert (objs w0 self = row w self) as Hw0 by done.
  assert (reclaim_call w1 self = reclaim_call w self) as Hrc.
  { unfold reclaim_call. rewrite Ho1, Hw0. unfold row.
    pose proof (autoflush_objs w self) as Hfl.
    rewrite <- (namespace_flushed _ _ _ Hfl).
    apply flushed_keeps in Hfl as (<- & _). done. }
  assert (live_referrers w1 self = []) as Hnil1.
  { apply filter_nil_intro. intros o Ho (Hch & Hdel & Hid).
    unfold table in Ho. destruct (autoflush_frame w1) as (Hfs1 & _). rewrite Hfs1 in Ho.
    pose proof (autoflush_objs w1 o) as Hfl. fold (row w1 o) in Hfl.
    destruct (decide (o = self)) as [-> | Hne].
    { apply flushed_keeps in Hfl as (_ & _ & _ & _ & _ & _ & Hb & _).
      rewrite (Hb true) in Hdel; [done|]. by rewrite Ho1. }
    apply Hs1 in Ho as [-> | Ho]; [done|].
    assert (o ∈ session w) as Hos by (by rewrite <- Hfs).
    rewrite Hoth1 in Hfl by done. change (objs w0 o) with (row w o) in Hfl.
    apply flushed_keeps in Hfl as (_ & _ & _ & _ & _ & Hsame & _).
    rewrite Hsame in Hch, Hdel, Hid by (by apply row_persistent).
    rewrite Ho1, Hw0 in Hch, Hid. simpl in Hch, Hid.
    assert (live_referrer w self o) as Hl.
    { pose proof (autoflush_objs w self) as Hfs'. fold (row w self) in Hfs'.
      unfold live_referrer. split_and!; [|done|].
      - apply flushed_keeps in Hfs' as (<- & _). done.
      - destruct (id (objs w self)) as [i|] eqn:Ei.
        + apply flushed_keeps in Hfs' as (_ & _ & _ & _ & _ & Hsame' & _).
          rewrite Hsame' in Hid by congruence. by rewrite Ei in Hid.
        + by apply row_persistent. }
    assert (o ∈ live_referrers w self) as Hx.
    { apply list_elem_of_filter. split; [done|]. unfold table. by rewrite Hfs. }
    rewrite Hnil in Hx. by apply elem_of_nil in Hx. }
  rewrite delete_publication_eq. simpl.
  rewrite bool_decide_eq_true_2 by done. rewrite Hrc, Hcalls.
  destruct (faults w1 _) as [e|]; simpl.
  - by rewrite <- app_assoc.
  - match goal with |- context [assigned ?s ?g ?x] =>
      destruct (assigned_frame s g x) as (_ & _ & -> & _) end.
    simpl. by rewrite <- app_assoc.
Qed.

Lemma delete_publication_twice_calls_twice_witness :
  live_referrers world_one_published 0 = []
  ∧ faults world_one_published (length (calls world_one_published)) = None
  ∧ ∃ w1,
      delete_publication 0 world_one_published = Return tt w1
      ∧ calls (world_of (delete_publication 0 w1))
        = [DeletePublicationCall (Some "role:7") (Some "abc");
           DeletePublicationCall (Some "role:7") (Some "abc")].
Proof.
  split; [reflexivity|]. split; [reflexivity|].
  destruct (delete_publication_twice_calls_twice world_one_published 0 eq_refl eq_refl)
    as (w1 & E & _ & _ & Hc).
  exists w1. split; [exact E|exact Hc].
Defined.

(** ** A reclaimed export and the lookups *)

Lemma delete_publication_marks (w w' : World) (self : nat) :
  delete_publication self w = Return tt w' → deleted (row w' self) = Some true.
Proof.
  rewrite delete_publication_eq. simpl. intros H.
  assert (deleted (objs w' self) = Some true) as Hd.
  { case_bool_decide.
    - destruct (faults w (length (calls w))); [done|]. injection H as <-.
      match goal with |- context [assigned ?s ?g ?x] =>
        destruct (assigned_frame s g x) as (-> & _) end. done.
    - injection H as <-.
      match goal with |- context [assigned ?s ?g ?x] =>
        destruct (assigned_frame s g x) as (-> & _) end. done. }
  pose proof (autoflush_objs w' self) as Hfl.
  apply flushed_keeps in Hfl as (_ & _ & _ & _ & _ & _ & Hb & _). by apply Hb.
Qed.

(** X11.  Once [delete_publication] has returned, the export is no
    longer among the rows of [get_expired()], of [by_role_id(role)] for
    any role, nor the answer of [by_id] for any id and role, each with
    its default argument: the expiry sweep does not meet it again. *)
Theorem reclaimed_export_leaves_default_lookups (w w' : World) (self : nat) :
  delete_publication self w = Return tt w' →
  (∃ rows, (get_expired (Some false) ≫= query_rows) w' = Return rows (autoflush w')
           ∧ self ∉ rows)
  ∧ (∀ role, ∃ rows,
       (by_role_id role false ≫= query_rows) w' = Return rows (autoflush w')
       ∧ self ∉ rows)
  ∧ (∀ i role, ∃ r, by_id i role false w' = Return r (autoflush w') ∧ r ≠ Some self).
Proof.
  intros H. apply delete_publication_marks in H. split_and!.
  - rewrite get_expired_rows_eq. eexists. split; [reflexivity|].
    rewrite list_elem_of_filter. intros [[_ Hd] _]. simpl in Hd. congruence.
  - intros role. eexists. split; [reflexivity|]. simpl.
    rewrite merge_sort_Permutation, list_elem_of_filter.
    intros [Hsel _]. apply selects_by_role_id in Hsel as [_ Hd].
    fold (row w' self) in Hd. congruence.
  - intros i role. rewrite by_id_eq. eexists. split; [reflexivity|].
    intros E. apply head_Some_elem_of in E. apply list_elem_of_filter in E as [Hm _].
    destruct Hm as (_ & _ & [Hd|Hd]); [done|congruence].
Qed.

Lemma reclaimed_export_leaves_default_lookups_witness :
  ∃ w', delete_publication 0 world_one_published = Return tt w'
        ∧ ∃ r, by_id (Some 1) None false w' = Return r (autoflush w') ∧ r ≠ Some 0%nat.
Proof.
  assert (∃ w', delete_publication 0 world_one_published = Return tt w') as (w' & E).
  { eexists. rewrite delete_publication_eq. reflexivity. }
  exists w'. split; [exact E|].
  exact (proj2 (proj2 (reclaimed_export_leaves_default_lookups
                         world_one_published w' 0 E)) (Some 1) None).
Defined.

(** ** The keys of the serialized map *)

Section SerializationKeys.

Variable to_dict_dates : export → gmap string pyval.

(** X16.  The map [to_dict] returns has the twelve keys of its update,
    whatever [to_dict_dates] returns, and passes every other key of
    [to_dict_dates] through unchanged. *)
Theorem to_dict_keys (self : export) :
  dom (to_dict to_dict_dates self)
  = list_to_set ["id"; "label"; "operation"; "creator_id"; "collection_id";
                 "expires_at"; "deleted"; "export_status"; "content_hash";
                 "file_size"; "file_name"; "meta"]
    ∪ dom (to_dict_dates self)
  ∧ to_dict to_dict_dates self !! "id" = Some (py_opt PyStr (pretty <$> id self))
  ∧ ∀ k, k ∉ ["id"; "label"; "operation"; "creator_id"; "collection_id";
              "expires_at"; "deleted"; "export_status"; "content_hash";
              "file_size"; "file_name"; "meta"] →
         to_dict to_dict_dates self !! k = to_dict_dates self !! k.
Proof.
  unfold to_dict. split_and!.
  - rewrite dom_union_L, dom_list_to_map_L. simpl.
    destruct (export_status self ≫= _) as [lbl|]; [|done].
    rewrite dom_insert_L. set_solver.
  - apply lookup_union_Some_l. rewrite !list_to_map_cons. apply lookup_insert_eq.
  - intros k Hk. rewrite lookup_union_r.
    + destruct (export_status self ≫= _) as [lbl|]; [|done].
      apply lookup_insert_ne. intros <-. apply Hk. set_solver.
    + apply not_elem_of_list_to_map_1. simpl. exact Hk.
Qed.

End SerializationKeys.

(** ** Creation, step by step *)

Section CreationMore.

Variable hexdigest : list Byte.byte → string.
Variable safe_filename : Path → option string.

(** Every way [create] can end. *)
Lemma create_summary (w : World) op role lbl fp exp coll mime :
  let e := next_ref w in
  let t := utcnow w + timedelta_or exp DEFAULT_EXPIRATION in
  match create hexdigest safe_filename op role lbl fp exp coll mime w with
  | Return e' w' =>
      e' = e
      ∧ objs w' e = created hexdigest safe_filename w op role lbl fp coll mime t
      ∧ (∀ o, o ≠ e → objs w' o = objs w o)
      ∧ (∀ o, o ∈ session w' ↔ o = e ∨ o ∈ session w)
      ∧ files w' = files w ∧ calls w' = calls w ∧ published w' = published w
      ∧ utcnow w' = utcnow w
      ∧ (∀ p, fp = Some p → is_Some (files w !! p))
      ∧ 0 ≤ t < DATETIME_END
  | Raise ex w' =>
      create_env w e w'
      ∧ ((∃ p, fp = Some p ∧ files w !! p = None
               ∧ ex = FileNotFoundError "No such file or directory")
         ∨ ((∀ p, fp = Some p → is_Some (files w !! p))
            ∧ ¬ (0 ≤ t < DATETIME_END)
            ∧ ex = OverflowError "date value out of range"))
  end.
Proof.
  intros e t.
  set (Inv := λ (v : export) (w' : World), objs w' e = v ∧ create_env w e w').
  set (E := λ (ex : exn) (w' : World),
         create_env w e w'
         ∧ ((∃ p, fp = Some p ∧ files w !! p = None
                  ∧ ex = FileNotFoundError "No such file or directory")
            ∨ ((∀ p, fp = Some p → is_Some (files w !! p))
               ∧ ¬ (0 ≤ t < DATETIME_END)
               ∧ ex = OverflowError "date value out of range"))).
  cut (triple (λ w', w' = w)
         (create hexdigest safe_filename op role lbl fp exp coll mime)
         (λ e' w',
            e' = e
            ∧ objs w' e = created hexdigest safe_filename w op role lbl fp coll mime t
            ∧ (∀ o, o ≠ e → objs w' o = objs w o)
            ∧ (∀ o, o ∈ session w' ↔ o = e ∨ o ∈ session w)
            ∧ files w' = files w ∧ calls w' = calls w ∧ published w' = published w
            ∧ utcnow w' = utcnow w
            ∧ (∀ p, fp = Some p → is_Some (files w !! p))
            ∧ 0 ≤ t < DATETIME_END) E).
  { intros H. exact (H w eq_refl). }
  assert (∀ v f, triple (Inv v) (setattr e f) (λ _, Inv (f v)) E) as Hset.
  { intros v f. apply triple_setattr. intros w' [Hv Henv]. split.
    - simpl. by rewrite fn_lookup_insert, Hv.
    - destruct Henv as (Ho & Hrest). split; [|exact Hrest].
      intros o Hne. simpl. rewrite fn_lookup_insert_ne by done. by apply Ho. }
  unfold create.
  apply triple_bind with (Q1 := λ a w', a = e ∧ Inv blank w').
  { intros w' Hw'. subst w'. simpl. split; [done|]. split.
    - simpl. apply fn_lookup_insert.
    - unfold create_env. simpl. split_and!; try done.
      intros o Hne. by rewrite fn_lookup_insert_ne. }
  intros a.
  apply triple_bind with (Q1 := λ _ w', a = e ∧ Inv (with_creator_id role blank) w').
  { intros w' [-> HI]. pose proof (Hset _ (with_creator_id role) w' HI). done. }
  intros _.
  apply triple_bind
    with (Q1 := λ _ w', a = e ∧ Inv (with_operation op (with_creator_id role blank)) w').
  { intros w' [-> HI]. pose proof (Hset _ (with_operation op) w' HI). done. }
  intros _.
  set (v3 := with_label lbl (with_operation op (with_creator_id role blank))).
  apply triple_bind with (Q1 := λ _ w', a = e ∧ Inv v3 w').
  { intros w' [-> HI]. pose proof (Hset _ (with_label lbl) w' HI). done. }
  intros _.
  set (v4 := staged hexdigest safe_filename w fp v3).
  apply triple_bind
    with (Q1 := λ _ w', a = e ∧ Inv v4 w' ∧ ∀ p, fp = Some p → is_Some (files w !! p)).
  { intros w' [-> [Hv Henv]]. destruct fp as [p|]; [|done].
    pose proof (set_filepath_effect hexdigest safe_filename w' e p) as H.
    assert (files w' = files w) as Hfw by apply Henv.
    rewrite Hfw in H. unfold v4, staged.
    destruct (files w !! p) as [bs|] eqn:Ef.
    - destruct H as (w'' & -> & Ho & Hoth & Hsame). split; [done|]. split.
      + split; [by rewrite Ho, Hv|].
        destruct Henv as (Ho' & Hs & Hf & Hc & Hp & Hfa & Hu & Hni & Hnr).
        destruct Hsame as (Hs2 & Hf2 & Hc2 & Hp2 & Hfa2 & Hu2 & Hnr2 & Hni2).
        unfold create_env. split_and!; try congruence.
        intros o Hne. rewrite Hoth by done. by apply Ho'.
      + intros p' Hp'. injection Hp' as <-. by rewrite Ef.
    - rewrite H. split; [done|]. left. eauto. }
  intros _.
  set (v5 := match coll with
             | Some cid => with_collection_id cid
             | None => λ e, e
             end v4).
  apply triple_bind
    with (Q1 := λ _ w', a = e ∧ Inv v5 w' ∧ ∀ p, fp = Some p → is_Some (files w !! p)).
  { intros w' (-> & HI & Hf). unfold v5. destruct coll as [cid|]; [|done].
    pose proof (Hset _ (with_collection_id cid) w' HI). done. }
  intros _.
  apply triple_bind
    with (Q1 := λ _ w', a = e ∧ Inv (with_mime_type mime v5) w'
                        ∧ ∀ p, fp = Some p → is_Some (files w !! p)).
  { intros w' (-> & HI & Hf). pose proof (Hset _ (with_mime_type mime) w' HI). done. }
  intros _.
  apply triple_bind
    with (Q1 := λ now w', now = utcnow w ∧ a = e ∧ Inv (with_mime_type mime v5) w'
                          ∧ ∀ p, fp = Some p → is_Some (files w !! p)).
  { intros w' (-> & HI & Hf). simpl. split_and!; try done. apply HI. }
  intros now.
  apply triple_bind
    with (Q1 := λ t' w', t' = t ∧ 0 ≤ t < DATETIME_END ∧ a = e
                         ∧ Inv (with_mime_type mime v5) w'
                         ∧ ∀ p, fp = Some p → is_Some (files w !! p)).
  { intros w' (-> & -> & HI & Hf). unfold datetime_add, mret, Py_ret, raise.
    fold t. case_bool_decide; [done|]. split; [apply HI|]. right. done. }
  intros t'.
  apply triple_bind
    with (Q1 := λ _ w', 0 ≤ t < DATETIME_END ∧ a = e
                        ∧ Inv (with_expires_at (Some t) (with_mime_type mime v5)) w'
                        ∧ ∀ p, fp = Some p → is_Some (files w !! p)).
  { intros w' (-> & Ht & -> & HI & Hf).
    pose proof (Hset _ (with_expires_at (Some t)) w' HI). done. }
  intros _.
  apply triple_bind
    with (Q1 := λ _ w',
            0 ≤ t < DATETIME_END ∧ a = e
            ∧ objs w' e = with_expires_at (Some t) (with_mime_type mime v5)
            ∧ (∀ o, o ≠ e → objs w' o = objs w o)
            ∧ (∀ o, o ∈ session w' ↔ o = e ∨ o ∈ session w)
            ∧ files w' = files w ∧ calls w' = calls w ∧ published w' = published w
            ∧ utcnow w' = utcnow w
            ∧ ∀ p, fp = Some p → is_Some (files w !! p)).
  { intros w' (Ht & -> & [Hv Henv] & Hf).
    destruct Henv as (Ho' & Hs & Hfi & Hc & Hp & Hfa & Hu & Hni & Hnr).
    unfold session_add, modify. case_bool_decide as Hin; simpl.
    - split; [exact Ht|]. split_and!; try done. intros o. rewrite <- Hs.
      split; [by right|]. by intros [-> | ?].
    - split; [exact Ht|]. split_and!; try done. intros o.
      rewrite elem_of_app, list_elem_of_singleton, Hs. tauto. }
  intros _. apply triple_ret.
  intros w' (Ht & -> & Hv & Ho & Hs & Hfi & Hc & Hp & Hu & Hf).
  split; [done|]. split; [exact Hv|]. split_and!; try done; apply Ht.
Qed.

End CreationMore.

Section CreationProperties.

Variable hexdigest : list Byte.byte → string.
Variable safe_filename : Path → option string.

Lemma created_fields (w : World) op role lbl fp coll mime t :
  let r := created hexdigest safe_filename w op role lbl fp coll mime t in
  creator_id r = role ∧ operation r = op ∧ label r = lbl ∧ mime_type r = mime
  ∧ collection_id r = match coll with Some cid => cid | None => None end
  ∧ expires_at r = Some t
  ∧ id r = None ∧ export_status r = None ∧ deleted r = None ∧ created_at r = None
  ∧ content_hash r = match fp with
                     | Some p => hexdigest <$> files w !! p
                     | None => None
                     end
  ∧ (fp = None → _file_path r = Absent)
  ∧ (∀ p, fp = Some p → is_Some (files w !! p) → _file_path r = Bound (Some p)).
Proof.
  unfold created, staged. simpl.
  destruct coll as [cid|], fp as [p|]; simpl;
    try destruct (files w !! p) as [bs|] eqn:Ef; simpl; split_and!; try done.
  all: try (intros p' Hp' Hs; injection Hp' as <-; done).
  all: intros p' Hp' [bs Hs]; congruence.
Qed.

(** X12.  When [create] returns, the export is a new instance in the
    session that carries the arguments and has no id, no status and no
    deleted flag assigned yet; no other instance and no call to the
    store has been touched.  When [create] raises, the session is as it
    was. *)
Theorem create_registers_pending_export (w : World) op role lbl fp exp coll mime :
  match create hexdigest safe_filename op role lbl fp exp coll mime w with
  | Return e w' =>
      e = next_ref w ∧ e ∈ session w'
      ∧ creator_id (objs w' e) = role ∧ operation (objs w' e) = op
      ∧ label (objs w' e) = lbl ∧ mime_type (objs w' e) = mime
      ∧ collection_id (objs w' e) = match coll with Some cid => cid | None => None end
      ∧ id (objs w' e) = None ∧ export_status (objs w' e) = None
      ∧ deleted (objs w' e) = None
      ∧ (∀ o, o ≠ e → objs w' o = objs w o)
      ∧ (∀ o, o ∈ session w' ↔ o = e ∨ o ∈ session w)
      ∧ calls w' = calls w
  | Raise ex w' =>
      session w' = session w ∧ calls w' = calls w
      ∧ (∀ o, o ≠ next_ref w → objs w' o = objs w o)
      ∧ (ex = FileNotFoundError "No such file or directory"
         ∨ ex = OverflowError "date value out of range")
  end.
Proof.
  pose proof (create_summary hexdigest safe_filename w op role lbl fp exp coll mime) as Hsum.
  destruct (create _ _ _ _ _ _ _ _ _ w) as [e w'|ex w'] eqn:Hc; simpl in Hsum.
  - destruct Hsum as (-> & Hv & Ho & Hs & _ & Hcalls & _).
    destruct (created_fields w op role lbl fp coll mime
                (utcnow w + timedelta_or exp DEFAULT_EXPIRATION))
      as (F1 & F2 & F3 & F4 & F5 & _ & F7 & F8 & F9 & _).
    rewrite <- Hv in F1, F2, F3, F4, F5, F7, F8, F9.
    split_and!; try done. apply Hs. by left.
  - destruct Hsum as ((Ho & Hs & _ & Hcalls & _) & Hcause).
    split_and!; try done.
    destruct Hcause as [(p & _ & _ & ->)|(_ & _ & ->)]; auto.
Qed.

(** X14.  The [expires_at] of an export [create] returned is at or
    before the clock reading [create] took exactly when a negative
    duration was given: with no duration, a zero duration or a positive
    one it lies after that reading. *)
Theorem created_export_expired_iff_negative (w : World) op role lbl fp exp coll mime :
  match create hexdigest safe_filename op role lbl fp exp coll mime w with
  | Return e w' =>
      ∃ t, expires_at (objs w' e) = Some t
           ∧ (t ≤ utcnow w ↔ ∃ d, exp = Some d ∧ d < 0)
  | Raise ex w' =>
      (∃ p, fp = Some p ∧ files w !! p = None)
      ∨ ¬ (0 ≤ utcnow w + timedelta_or exp DEFAULT_EXPIRATION < DATETIME_END)
  end.
Proof.
  pose proof (create_summary hexdigest safe_filename w op role lbl fp exp coll mime) as Hsum.
  destruct (create _ _ _ _ _ _ _ _ _ w) as [e w'|ex w'] eqn:Hc; simpl in Hsum.
  - destruct Hsum as (-> & Hv & _).
    destruct (created_fields w op role lbl fp coll mime
                (utcnow w + timedelta_or exp DEFAULT_EXPIRATION))
      as (_ & _ & _ & _ & _ & Hx & _).
    rewrite <- Hv in Hx. eexists. split; [exact Hx|].
    unfold timedelta_or, DEFAULT_EXPIRATION. split.
    + intros Hle. destruct exp as [d|]; [|lia]. case_bool_decide; [lia|].
      exists d. split; [done|lia].
    + intros (d & -> & Hneg). rewrite bool_decide_eq_false_2 by lia. lia.
  - destruct Hsum as (_ & [(p & ? & ? & _)|(_ & ? & _)]); eauto.
Qed.

(** X15.  Given a path where there is no file, [create] raises
    [FileNotFoundError]; the instance it had built is not added to the
    session, and no other instance, file, or call to the store is
    touched. *)
Theorem create_missing_file (w : World) op role lbl (p : Path) exp coll mime :
  files w !! p = None →
  ∃ w', create hexdigest safe_filename op role lbl (Some p) exp coll mime w
        = Raise (FileNotFoundError "No such file or directory") w'
        ∧ session w' = session w
        ∧ files w' = files w
        ∧ calls w' = calls w
        ∧ ∀ o, o ≠ next_ref w → objs w' o = objs w o.
Proof.
  intros Hf.
  pose proof (create_summary hexdigest safe_filename w op role lbl (Some p) exp coll mime)
    as Hsum.
  destruct (create _ _ _ _ _ _ _ _ _ w) as [e w'|ex w']; simpl in Hsum.
  - destruct Hsum as (_ & _ & _ & _ & _ & _ & _ & _ & Hsome & _).
    destruct (Hsome p eq_refl) as [bs Hbs]. congruence.
  - destruct Hsum as ((Ho & Hs & Hfi & Hc & _) & Hcause).
    destruct Hcause as [(p' & Hp' & _ & ->)|(Hsome & _)].
    + exists w'. split_and!; done.
    + destruct (Hsome p eq_refl) as [bs Hbs]. congruence.
Qed.

End CreationProperties.

Lemma create_missing_file_witness :
  files world_two_exports !! ("/tmp", "missing.zip") = None
  ∧ ∃ w', create sample_digest sample_safe_filename (Some "search_export") (Some 7)
            (Some "results") (Some ("/tmp", "missing.zip")) None None None
            world_two_exports
          = Raise (FileNotFoundError "No such file or directory") w'
          ∧ session w' = session world_two_exports.
Proof.
  assert (files world_two_exports !! ("/tmp", "missing.zip") = None) as Hf by reflexivity.
  split; [exact Hf|].
  destruct (create_missing_file sample_digest sample_safe_filename world_two_exports
              (Some "search_export") (Some 7) (Some "results") ("/tmp", "missing.zip")
              None None None Hf) as (w' & E & Hs & _).
  exists w'. split; [exact E|exact Hs].
Defined.

(** ** Two edges of the protocol *)

(** X17.  [publish] catches [Exception] only.  When the store raises
    something else, it reaches the caller as it is, the status of the
    export is the one it had, and the staged file has already been
    moved. *)
Theorem publish_lets_interrupt_through (w : World) (self : nat) (fp : Path)
    (h : string) (bs : list Byte.byte) (e : exn) :
  _file_path (objs w self) = Bound (Some fp) →
  content_hash (objs w self) = Some h →
  files w !! fp = Some bs →
  faults w (length (calls w)) = Some e →
  derives_Exception e = false →
  ∃ w', publish self w = Raise e w'
        ∧ objs w' = objs w
        ∧ session w' = session w
        ∧ files w' !! (parent fp, h) = Some bs
        ∧ calls w' = calls w ++ [PublishCall (namespace (objs w self)) (parent fp, h)
                                   (mime_type (objs w self))].
Proof.
  intros Hfp Hh Hfile Hfault Hexn.
  rewrite publish_eq, Hfp, Hh, Hfile, Hfault, Hexn. simpl.
  eexists. split; [reflexivity|]. simpl. split_and!; try done.
  apply lookup_insert_eq.
Qed.

Lemma publish_lets_interrupt_through_witness :
  faults world_staged_interrupted (length (calls world_staged_interrupted))
  = Some KeyboardInterrupt
  ∧ derives_Exception KeyboardInterrupt = false
  ∧ ∃ w', publish 0 world_staged_interrupted = Raise KeyboardInterrupt w'
          ∧ objs w' = objs world_staged_interrupted.
Proof.
  split; [reflexivity|]. split; [reflexivity|].
  destruct (publish_lets_interrupt_through world_staged_interrupted 0
              ("/tmp", "export.zip") "abc" [x01; x02] KeyboardInterrupt
              eq_refl eq_refl eq_refl eq_refl eq_refl) as (w' & E & Ho & _).
  exists w'. split; [exact E|exact Ho].
Defined.

(** X18.  The criteria of the live-referrer query are built from the
    attributes of the export before the query flushes the session.  For
    an export that is in the session without a primary key yet and is
    not marked deleted, the criterion on the id is [id IS NOT NULL]; the
    flush then inserts the export, which is found as a live referrer of
    its own content hash: [delete_publication] returns without a call to
    the store, whatever else the table holds. *)
Theorem pending_export_is_its_own_referrer (w : World) (self : nat) :
  self ∈ session w →
  id (objs w self) = None →
  deleted (objs w self) ≠ Some true →
  self ∈ live_referrers w self
  ∧ ∃ w', delete_publication self w = Return tt w'
          ∧ calls w' = calls w
          ∧ published w' = published w
          ∧ deleted (objs w' self) = Some true.
Proof.
  intros Hin Hid Hd.
  destruct (autoflush_frame w) as (Hfs & _ & _ & Hfc & _ & Hfp & _).
  assert (self ∈ live_referrers w self) as Hself.
  { apply list_elem_of_filter. split; [|unfold table; by rewrite Hfs].
    unfold live_referrer, row. split_and!.
    - pose proof (autoflush_objs w self) as Hfl.
      apply flushed_keeps in Hfl as (-> & _). done.
    - eapply deleted_flushed_not_true; [apply autoflush_objs|done].
    - rewrite Hid. by apply autoflush_id. }
  split; [exact Hself|].
  rewrite delete_publication_eq. simpl.
  rewrite bool_decide_eq_false_2.
  - eexists. split; [reflexivity|].
    destruct (assigned_frame self (with_deleted (Some true)) (autoflush w))
      as (Ho & _ & Hc & _ & Hp & _).
    rewrite Ho, Hc, Hp. done.
  - intros Hnil. rewrite Hnil in Hself. by apply elem_of_nil in Hself.
Qed.

Lemma pending_export_is_its_own_referrer_witness :
  0%nat ∈ session world_unflushed
  ∧ id (objs world_unflushed 0) = None
  ∧ (∀ o, o ∈ session world_unflushed → o = 0%nat)
  ∧ ∃ w', delete_publication 0 world_unflushed = Return tt w'
          ∧ calls w' = []
          ∧ (Some "role:7", Some "abc") ∈ published w'.
Proof.
  assert (0%nat ∈ session world_unflushed) as Hin by left.
  split; [exact Hin|]. split; [reflexivity|]. split.
  { intros o Ho. apply elem_of_cons in Ho as [Ho|Ho]; [done|].
    by apply elem_of_nil in Ho. }
  destruct (pending_export_is_its_own_referrer world_unflushed 0 Hin eq_refl
              ltac:(discriminate)) as (_ & w' & E & Hc & Hp & _).
  exists w'. split; [exact E|]. split; [exact Hc|].
  rewrite Hp. cbn [published world_unflushed]. by apply elem_of_singleton_2.
Defined.

(** The same edge end to end: an export is created with its file,
    published and reclaimed with no query in between.  The store has
    received the publication only, and the blob is still there. *)
Lemma create_publish_reclaim_unflushed_example :
  match (e ← create sample_digest sample_safe_filename (Some "search_export") (Some 7)
               (Some "results") (Some ("/tmp", "a.zip")) None None None;
         publish e;; delete_publication e;; mret e)
          (with_session [] world_two_exports) with
  | Return e w' =>
      calls w' = [PublishCall (Some "role:7") ("/tmp", "sha1:2") None]
      ∧ deleted (objs w' e) = Some true
      ∧ elements (published w') = [(Some "role:7", Some "sha1:2")]
  | Raise _ _ => False
  end.
Proof. vm_compute. done. Qed.

(** ** Reclaiming the publication of a stored export *)

Lemma stored_row_same (w : World) (o : nat) : id (objs w o) ≠ None → row w o = objs w o.
Proof.
  intros Hid. pose proof (autoflush_objs w o) as Hfl.
  apply flushed_keeps in Hfl as (_ & _ & _ & _ & _ & Hsame & _). by apply Hsame.
Qed.

Lemma other_live_records_stored (w : World) (self : nat) :
  id (objs w self) ≠ None → other_live_records w self = live_referrers w self.
Proof.
  intros Hid. apply list_filter_iff. intros o.
  unfold other_live_record, live_referrer. split; [tauto|].
  intros (Hh & Hd & Hi). split_and!; try done.
  intros ->. by rewrite stored_row_same in Hi.
Qed.

Lemma filter_nil_iff_none {A} (P : A → Prop) `{!∀ x, Decision (P x)} (l : list A) :
  filter P l = [] ↔ ¬ ∃ x, x ∈ l ∧ P x.
Proof.
  split.
  - intros Hnil (x & Hx & HP). by apply (filter_nil_not_elem_of P l x Hnil HP).
  - intros Hno. apply filter_nil_intro. intros x Hx HP. apply Hno. eauto.
Qed.

(** C2, amended.  For an export that has its primary key,
    [delete_publication] sends the store the call for the namespace and
    content hash of the export exactly when the table holds no other
    record with the same content hash, not marked deleted and with
    another id, and sends it nothing otherwise.  When it returns, which
    it does unless the store answers that call with an error, the export
    is marked deleted and is in the session; when the store answers with
    an error, the error reaches the caller and the [deleted] flag of the
    export is as it was. *)
Theorem delete_publication_of_stored_export (w : World) (self : nat) :
  id (objs w self) ≠ None →
  let sent := if bool_decide (other_live_records w self = [])
              then [reclaim_call w self] else [] in
  (sent = [reclaim_call w self]
   ↔ ¬ ∃ o, o ∈ table w ∧ other_live_record w self o)
  ∧ match delete_publication self w with
    | Return _ w' =>
        calls w' = calls w ++ sent
        ∧ deleted (objs w' self) = Some true
        ∧ self ∈ session w'
        ∧ (sent = [] ∨ faults w (length (calls w)) = None)
    | Raise e w' =>
        calls w' = calls w ++ sent
        ∧ sent = [reclaim_call w self]
        ∧ faults w (length (calls w)) = Some e
        ∧ deleted (objs w' self) = deleted (objs w self)
    end.
Proof.
  intros Hid sent. subst sent. split.
  { unfold other_live_records. rewrite <- filter_nil_iff_none.
    case_bool_decide; split; intros; done. }
  rewrite (other_live_records_stored w self Hid).
  pose proof (delete_publication_effect w self) as H. simpl in H.
  destruct (delete_publication self w) as [[] w'|e w']; [exact H|].
  destruct H as (H1 & H2 & H3 & H4). split_and!; try done.
  rewrite H4. by rewrite stored_row_same.
Qed.

Lemma delete_publication_of_stored_export_witness :
  id (objs world_one_published 0) ≠ None
  ∧ (¬ ∃ o, o ∈ table world_one_published ∧ other_live_record world_one_published 0 o)
  ∧ calls (world_of (delete_publication 0 world_one_published))
    = [DeletePublicationCall (Some "role:7") (Some "abc")]
  ∧ deleted (objs (world_of (delete_publication 0 world_one_published)) 0) = Some true.
Proof.
  assert (id (objs world_one_published 0) ≠ None) as Hid by discriminate.
  destruct (delete_publication_of_stored_export world_one_published 0 Hid) as [Hiff H].
  split; [exact Hid|]. split.
  - apply Hiff. reflexivity.
  - destruct (delete_publication 0 world_one_published) as [[] w'|e w'] eqn:E.
    + destruct H as (Hc & Hd & _). split; [exact Hc|exact Hd].
    + destruct H as (_ & _ & Hf & _). discriminate Hf.
Defined.

(** ** Exports of a role, in a table whose flags are set *)

Lemma row_flag_set (w : World) (o : nat) :
  deleted_flags_set w → o ∈ table w → deleted (row w o) ≠ None.
Proof.
  intros Hw Ho. unfold table in Ho. destruct (autoflush_frame w) as (Hs & _).
  rewrite Hs in Ho. pose proof (autoflush_id w o Ho) as Hid.
  unfold row in *. destruct (autoflush_objs w o) as [E|(_ & i & E)].
  - rewrite E in *. by apply Hw.
  - rewrite E. simpl. by destruct (deleted (objs w o)).
Qed.

(** C9.  In a table whose stored rows all have their [deleted] flag
    set, as the rows this module writes have, the query
    [by_role_id(role_id)] builds with its default argument returns, run
    at once, exactly the rows whose [creator_id] equals the role id and
    whose [deleted] is not true, each as often as the table holds it,
    every row before the rows created earlier. *)
Theorem by_role_id_default_not_deleted (w : World) (role_id : option Z) :
  deleted_flags_set w →
  ∃ rows,
    (by_role_id role_id false ≫= query_rows) w = Return rows (autoflush w)
    ∧ (∀ o, o ∈ rows ↔
         o ∈ table w ∧ creator_id (row w o) = role_id
         ∧ deleted (row w o) ≠ Some true)
    ∧ rows ≡ₚ filter (λ o, creator_id (row w o) = role_id
                           ∧ deleted (row w o) ≠ Some true) (table w)
    ∧ StronglySorted
        (λ a b, newer_or_same (created_at (row w a)) (created_at (row w b))) rows.
Proof.
  intros Hw. eexists. split; [reflexivity|]. simpl.
  assert (merge_sort (created_desc (autoflush w))
            (filter (λ o, selects
               (mkQuery [col_eq creator_id role_id; col_eq deleted (Some false)]
                  (Some created_at_desc)) (objs (autoflush w) o))
               (session (autoflush w)))
          ≡ₚ filter (λ o, creator_id (row w o) = role_id
                          ∧ deleted (row w o) ≠ Some true) (table w)) as HP.
  { rewrite merge_sort_Permutation.
    erewrite filter_iff_in; [reflexivity|].
    intros o Ho. fold (row w o). rewrite selects_by_role_id.
    pose proof (row_flag_set w o Hw Ho) as Hset.
    destruct (deleted (row w o)) as [[]|]; split; intros [? ?]; split; done. }
  split_and!.
  - intros o. rewrite HP, list_elem_of_filter. tauto.
  - exact HP.
  - apply (StronglySorted_merge_sort (created_desc (autoflush w))).
Qed.

Lemma world_two_creators_flags : deleted_flags_set world_two_creators.
Proof.
  intros o _. unfold world_two_creators. simpl. by destruct (decide (o = 0%nat)).
Qed.

Lemma by_role_id_default_not_deleted_witness :
  deleted_flags_set world_two_creators
  ∧ ∃ rows,
      (by_role_id (Some 7) false ≫= query_rows) world_two_creators
      = Return rows (autoflush world_two_creators)
      ∧ (0%nat ∈ rows) ∧ (1%nat ∉ rows).
Proof.
  split; [exact world_two_creators_flags|].
  destruct (by_role_id_default_not_deleted world_two_creators (Some 7)
              world_two_creators_flags) as (rows & E & Hiff & _).
  exists rows. split; [exact E|]. split.
  - apply Hiff. split; [left|]. split; [reflexivity|discriminate].
  - intros H1. apply Hiff in H1 as (_ & Hc & _). discriminate Hc.
Defined.

(** *** The module keeps the flags set *)

Lemma flags_no_rows (w : World) : (∀ o, id (objs w o) = None) → deleted_flags_set w.
Proof. intros H o Hid. by rewrite H in Hid. Qed.

Lemma flags_same_objs (w w' : World) :
  (∀ o, objs w' o = objs w o) → deleted_flags_set w → deleted_flags_set w'.
Proof. intros H Hw o. rewrite H. apply Hw. Qed.

Lemma flags_assigned (self : nat) (f : export → export) (w : World) :
  (∀ e, (id e ≠ None → deleted e ≠ None) → id (f e) ≠ None → deleted (f e) ≠ None) →
  deleted_flags_set w → deleted_flags_set (assigned self f w).
Proof.
  intros Hf Hw o. destruct (assigned_frame self f w) as (Ho & Hoth & _).
  destruct (decide (o = self)) as [-> | N].
  - rewrite Ho. apply Hf, Hw.
  - rewrite Hoth by done. apply Hw.
Qed.

Lemma flags_autoflush (w : World) : deleted_flags_set w → deleted_flags_set (autoflush w).
Proof.
  intros Hw o. destruct (autoflush_objs w o) as [E|(_ & i & E)]; rewrite E.
  - apply Hw.
  - intros _. simpl. by destruct (deleted (objs w o)).
Qed.

Lemma flags_publish (w : World) (self : nat) :
  deleted_flags_set w → deleted_flags_set (world_of (publish self w)).
Proof.
  intros Hw. rewrite publish_eq.
  destruct (_file_path (objs w self)) as [|[fp|]]; simpl; try done.
  destruct (content_hash (objs w self)) as [h|]; simpl; try done.
  destruct (files w !! fp) as [bs|]; simpl; try done.
  destruct (faults w (length (calls w))) as [e|]; simpl.
  - destruct (derives_Exception e); simpl; [|done].
    unfold status_assigned. apply flags_assigned; [|done]. intros e' He'. exact He'.
  - unfold status_assigned. apply flags_assigned; [|done]. intros e' He'. exact He'.
Qed.

Lemma flags_set_status (w : World) (self : nat) (s : string) :
  deleted_flags_set w → deleted_flags_set (world_of (set_status self s w)).
Proof.
  intros Hw. rewrite set_status_eq. simpl. case_bool_decide; [|done].
  unfold status_assigned. apply flags_assigned; [|done]. intros e' He'. exact He'.
Qed.

Lemma flags_delete_publication (w : World) (self : nat) :
  deleted_flags_set w → deleted_flags_set (world_of (delete_publication self w)).
Proof.
  intros Hw. apply flags_autoflush in Hw. rewrite delete_publication_eq. simpl.
  case_bool_decide.
  - destruct (faults w (length (calls w))) as [e|]; simpl; [done|].
    apply flags_assigned; [|done]. intros e' _ _. done.
  - simpl. apply flags_assigned; [|done]. intros e' _ _. done.
Qed.

Section FlagsAlongCalls.

Variable hexdigest : list Byte.byte → string.
Variable safe_filename : Path → option string.
Variable to_dict_dates : export → gmap string pyval.

Lemma flags_set_filepath (w : World) (self : nat) (p : Path) :
  deleted_flags_set w →
  deleted_flags_set (world_of (set_filepath hexdigest safe_filename self p w)).
Proof.
  intros Hw. pose proof (set_filepath_effect hexdigest safe_filename w self p) as H.
  destruct (files w !! p) as [bs|].
  - destruct H as (w' & -> & Ho & Hoth & _). simpl. intros o.
    destruct (decide (o = self)) as [-> | N].
    + rewrite Ho. simpl. apply Hw.
    + rewrite Hoth by done. apply Hw.
  - by rewrite H.
Qed.

(** [create] assigns no id. *)
Lemma create_leaves_id_unset (w : World) op role lbl fp exp coll mime :
  let w' := world_of (create hexdigest safe_filename op role lbl fp exp coll mime w) in
  id (objs w' (next_ref w)) = None ∧ ∀ o, o ≠ next_ref w → objs w' o = objs w o.
Proof.
  set (e := next_ref w).
  set (J := λ w' : World, id (objs w' e) = None ∧ ∀ o, o ≠ e → objs w' o = objs w o).
  cut (triple (λ w', w' = w)
         (create hexdigest safe_filename op role lbl fp exp coll mime)
         (λ _, J) (λ _, J)).
  { intros H. specialize (H w eq_refl). simpl.
    by destruct (create _ _ _ _ _ _ _ _ _ w). }
  assert (∀ a f, (∀ x, id (f x) = id x) →
            triple (λ w', a = e ∧ J w') (setattr a f) (λ _ w', a = e ∧ J w') (λ _, J))
    as Hset.
  { intros a f Hf. apply triple_setattr. intros w' [-> [Hi Ho]]. split; [done|]. split.
    - simpl. by rewrite fn_lookup_insert, Hf.
    - intros o Hne. simpl. rewrite fn_lookup_insert_ne by done. by apply Ho. }
  unfold create.
  apply triple_bind with (Q1 := λ a w', a = e ∧ J w').
  { intros w' Hw'. subst w'. simpl. split; [done|]. split.
    - simpl. by rewrite fn_lookup_insert.
    - intros o Hne. simpl. by rewrite fn_lookup_insert_ne. }
  intros a.
  do 3 (apply triple_bind with (Q1 := λ _ w', a = e ∧ J w');
        [by apply Hset|intros _]).
  apply triple_bind with (Q1 := λ _ w', a = e ∧ J w').
  { intros w' [-> [Hi Ho]]. destruct fp as [p|]; [|done].
    pose proof (set_filepath_effect hexdigest safe_filename w' e p) as H.
    destruct (files w' !! p) as [bs|].
    - destruct H as (w'' & -> & Hoe & Hoth & _). split; [done|]. split.
      + by rewrite Hoe.
      + intros o Hne. rewrite Hoth by done. by apply Ho.
    - rewrite H. done. }
  intros _.
  apply triple_bind with (Q1 := λ _ w', a = e ∧ J w').
  { destruct coll; [by apply Hset|]. by intros w' H. }
  intros _.
  apply triple_bind with (Q1 := λ _ w', a = e ∧ J w'); [by apply Hset|].
  intros _.
  apply triple_bind with (Q1 := λ _ w', a = e ∧ J w').
  { by intros w' H. }
  intros now.
  apply triple_bind with (Q1 := λ _ w', a = e ∧ J w').
  { intros w' [He HJ]. unfold datetime_add. case_bool_decide; done. }
  intros t.
  apply triple_bind with (Q1 := λ _ w', a = e ∧ J w'); [by apply Hset|].
  intros _.
  apply triple_bind with (Q1 := λ _ w', a = e ∧ J w').
  { intros w' [He HJ]. unfold session_add, modify. by case_bool_decide. }
  intros _. apply triple_ret. by intros w' [_ HJ].
Qed.

Lemma flags_create (w : World) op role lbl fp exp coll mime :
  deleted_flags_set w →
  deleted_flags_set
    (world_of (create hexdigest safe_filename op role lbl fp exp coll mime w)).
Proof.
  intros Hw o.
  destruct (create_leaves_id_unset w op role lbl fp exp coll mime) as [Hi Ho].
  destruct (decide (o = next_ref w)) as [-> | N].
  - intros Hid. by rewrite Hi in Hid.
  - rewrite Ho by done. apply Hw.
Qed.

Lemma flags_run_call (c : call) (w : World) :
  deleted_flags_set w →
  deleted_flags_set (run_call hexdigest safe_filename to_dict_dates c w).
Proof.
  intros Hw. destruct c; cbn [run_call].
  - by apply flags_create.
  - done.
  - done.
  - by apply flags_publish.
  - by apply flags_set_filepath.
  - by apply flags_set_status.
  - by apply flags_delete_publication.
  - rewrite should_delete_publication_eq. by apply flags_autoflush.
  - destruct deleted_arg; by apply flags_autoflush.
  - unfold by_id. rewrite world_of_query_first. by apply flags_autoflush.
  - by apply flags_autoflush.
Qed.

(** Whatever calls are made on the module, the stored rows keep a
    [deleted] flag that is true or false. *)
Lemma flags_run_calls (cs : list call) (w : World) :
  deleted_flags_set w →
  deleted_flags_set (run_calls hexdigest safe_filename to_dict_dates cs w).
Proof.
  revert w. induction cs as [|c cs IH]; intros w Hw; [done|].
  simpl. apply IH. by apply flags_run_call.
Qed.

End FlagsAlongCalls.
